(** * Web accessibility audit scripts: severity guard, report scaffold,
      issue template

    A shallow embedding of the three scripts under
    [web-accessibility-audit/scripts/]:

    - [severity_guard.py]       (module [SeverityGuard])
    - [a11y_report_scaffold.py] (module [ReportScaffold])
    - [issue_from_template.py]  (module [IssueTemplate])

    The calls of [re] and [pathlib] that the scripts make are modelled
    in the modules [Re] and [Pathlib].

    Python [str] values are sequences of Unicode code points; they are
    modelled as [list N].  Python dictionaries with string keys are
    modelled as [gmap (list N) _].  Exceptions are modelled by the error
    monad [res]. *)

From Stdlib Require Import NArith ZArith Lia Permutation Sorted.
From Stdlib Require DecimalString DecimalNat.
From stdpp Require Import base option list strings gmap.

Open Scope N_scope.

(** ** Python strings *)

Abbreviation char := N (only parsing).
Abbreviation str := (list N) (only parsing).

(** [lit "abc"] is the Python literal ['abc'] (ASCII literals only). *)
Definition lit (s : string) : str :=
  List.map Ascii.N_of_ascii (String.list_ascii_of_string s).

(** The newline character ['\n']. *)
Definition nl : str := [10].

(** ** Exceptions *)

Inductive exn : Type :=
| KeyError (key : str)
| ValueError (msg : str)
| IndexError.

Inductive res (A : Type) : Type :=
| Ok (a : A)
| Raise (e : exn).
Arguments Ok {A} a.
Arguments Raise {A} e.

Definition bind {A B} (m : res A) (f : A -> res B) : res B :=
  match m with
  | Ok a => f a
  | Raise e => Raise e
  end.

Notation "x <- m ;;; k" := (bind m (fun x => k))
  (at level 20, m at level 100, k at level 200, only parsing).
Notation "' p <- m ;;; k" := (bind m (fun p => k))
  (at level 20, p pattern, m at level 100, k at level 200, only parsing).

(** [d[key]] on a dictionary: raises [KeyError] when the key is absent. *)
Definition getitem {V} (d : gmap (list N) V) (key : str) : res V :=
  match d !! key with
  | Some v => Ok v
  | None => Raise (KeyError key)
  end.

(** ** The fragment of Python's [re] used by the scripts *)

Module Re.

(** Patterns, as the abstract syntax of the pattern strings. *)
Inductive regex : Type :=
| Eps                          (* empty pattern *)
| Lit (c : char)               (* a literal character, case-sensitive *)
| LitI (c : char)              (* a literal character under re.IGNORECASE *)
| SpaceStar                    (* \s*  (greedy) *)
| Bol                          (* ^ under re.MULTILINE *)
| Eol                          (* $ under re.MULTILINE *)
| Seq (r1 r2 : regex)
| Alt (r1 r2 : regex)          (* r1|r2, left alternative tried first *)
| Group (r : regex).           (* capturing group number 1 *)

(** [\s] on [str] patterns: the code points for which
    [str.isspace] holds. *)
Definition is_space (c : char) : bool :=
  ((9 <=? c) && (c <=? 13)) || ((28 <=? c) && (c <=? 32))
  || (c =? 133) || (c =? 160) || (c =? 5760)
  || ((8192 <=? c) && (c <=? 8202))
  || (c =? 8232) || (c =? 8233) || (c =? 8239) || (c =? 8287)
  || (c =? 12288).

Definition is_ascii_lower (c : char) : bool := (97 <=? c) && (c <=? 122).
Definition is_ascii_upper (c : char) : bool := (65 <=? c) && (c <=? 90).

(** An ASCII pattern character [p] compiled under [re.IGNORECASE]
    accepts the text character [c] when their lower-case forms agree.
    Besides the two ASCII cases of a letter this accepts
    U+0130 and U+0131 for [i], U+212A (KELVIN SIGN) for [k] and
    U+017F (LONG S) for [s]; uncased characters accept only
    themselves. *)
Definition ascii_lower (p : char) : char :=
  if is_ascii_upper p then p + 32 else p.

Definition ignorecase_eq (p c : char) : bool :=
  let lo := ascii_lower p in
  (c =? p)
  || (is_ascii_lower lo &&
      ((c =? lo) || (c =? lo - 32)
       || ((lo =? 105) && ((c =? 304) || (c =? 305)))
       || ((lo =? 107) && (c =? 8490))
       || ((lo =? 115) && (c =? 383)))).

(** A match in progress: the character before the cursor (if any), the
    text from the cursor on, and the text captured by group 1 so far. *)
Definition cont (A : Type) : Type :=
  option char -> str -> option str -> option A.

(** Greedy [\s*] with backtracking: consume as many space characters
    as possible, give back one at a time while the rest of the pattern
    fails. *)
Fixpoint space_star {A} (prev : option char) (s : str) (g : option str)
         (k : cont A) : option A :=
  match s with
  | c :: s' =>
      if is_space c then
        match space_star (Some c) s' g k with
        | Some a => Some a
        | None => k prev s g
        end
      else k prev s g
  | [] => k prev s g
  end.

(** Backtracking matcher in continuation-passing style. *)
Fixpoint matches {A} (r : regex) (prev : option char) (s : str)
         (g : option str) (k : cont A) : option A :=
  match r with
  | Eps => k prev s g
  | Lit p =>
      match s with
      | c :: s' => if c =? p then k (Some c) s' g else None
      | [] => None
      end
  | LitI p =>
      match s with
      | c :: s' => if ignorecase_eq p c then k (Some c) s' g else None
      | [] => None
      end
  | SpaceStar => space_star prev s g k
  | Bol =>
      match prev with
      | None => k prev s g
      | Some c => if c =? 10 then k prev s g else None
      end
  | Eol =>
      match s with
      | [] => k prev s g
      | c :: _ => if c =? 10 then k prev s g else None
      end
  | Seq r1 r2 =>
      matches r1 prev s g (fun prev' s' g' => matches r2 prev' s' g' k)
  | Alt r1 r2 =>
      match matches r1 prev s g k with
      | Some a => Some a
      | None => matches r2 prev s g k
      end
  | Group r1 =>
      matches r1 prev s g
        (fun prev' s' _ =>
           k prev' s' (Some (take (length s - length s') s)))
  end.

(** A match object; only [group(1)] is ever read. *)
Record match_obj : Type := MatchObj { group1 : option str }.

(** The pattern matched with the cursor at a given position. *)
Definition match_here (r : regex) (prev : option char) (s : str)
  : option match_obj :=
  matches r prev s None (fun _ _ g => Some (MatchObj g)).

(** [pattern.search(text)]: the match at the leftmost position where
    the pattern matches, scanning positions [0 .. len(text)]. *)
Fixpoint search_from (r : regex) (prev : option char) (s : str)
  : option match_obj :=
  match match_here r prev s with
  | Some m => Some m
  | None =>
      match s with
      | [] => None
      | c :: s' => search_from r (Some c) s'
      end
  end.

Definition search (r : regex) (text : str) : option match_obj :=
  search_from r None text.

(** All positions at which the pattern matches, left to right, with
    the match found there. *)
Fixpoint matches_from (r : regex) (prev : option char) (s : str)
  : list match_obj :=
  match match_here r prev s with Some m => [m] | None => [] end
  ++ match s with
     | [] => []
     | c :: s' => matches_from r (Some c) s'
     end.

Definition all_matches (r : regex) (text : str) : list match_obj :=
  matches_from r None text.

(** Pattern builders. *)
Definition word (w : str) : regex :=
  List.fold_right (fun c r => Seq (Lit c) r) Eps w.
Definition wordI (w : str) : regex :=
  List.fold_right (fun c r => Seq (LitI c) r) Eps w.
Fixpoint alts (rs : list regex) : regex :=
  match rs with
  | [] => Eps
  | [r] => r
  | r :: rs' => Alt r (alts rs')
  end.

(** [w1|w2|...|wn] for literal words, case-sensitive. *)
Definition one_of (words : list str) : regex := alts (List.map word words).

(** [w1|w2|...|wn] for literal phrases, compiled with re.IGNORECASE. *)
Definition any_of (phrases : list str) : regex :=
  alts (List.map wordI phrases).

End Re.

(** ** severity_guard.py *)

Module SeverityGuard.
Import Re.

Definition SEVERITY_ORDER : gmap (list N) nat :=
  {[ lit "Critical" := 0%nat; lit "High" := 1%nat;
     lit "Medium" := 2%nat; lit "Low" := 3%nat ]}.

(** The phrases of the three patterns of [RULES], and the patterns. *)
Definition blocker_phrases : list str :=
  [lit "core task blocked"; lit "cannot complete"; lit "keyboard trap";
   lit "inaccessible login"].
Definition critical_flow_phrases : list str :=
  [lit "checkout"; lit "payment"; lit "authentication"; lit "sign in";
   lit "screen reader cannot"].
Definition barrier_phrases : list str :=
  [lit "contrast"; lit "focus indicator"; lit "aria-"; lit "label missing"].

Definition blocker_pattern : regex := any_of blocker_phrases.
Definition critical_flow_pattern : regex := any_of critical_flow_phrases.
Definition barrier_pattern : regex := any_of barrier_phrases.

Definition rule : Type := regex * str * str.

Definition RULES : list rule :=
  [ (blocker_pattern, lit "Critical",
     lit "Issue text indicates a blocker for core user tasks.");
    (critical_flow_pattern, lit "High",
     lit "Issue impacts critical flow or key assistive technology behavior.");
    (barrier_pattern, lit "Medium",
     lit "Issue indicates a notable accessibility barrier.") ].

Definition severity_words : list str :=
  [lit "Critical"; lit "High"; lit "Medium"; lit "Low"].

(** [^- Severity:\s*(Critical|High|Medium|Low)\s*$] with re.MULTILINE. *)
Definition severity_line : regex :=
  Seq Bol
    (Seq (word (lit "- Severity:"))
       (Seq SpaceStar
          (Seq (Group (one_of severity_words)) (Seq SpaceStar Eol)))).

Definition parse_declared_severity (content : str) : option str :=
  match search severity_line content with
  | Some m => group1 m
  | None => None
  end.

(** The [for] loop over a rule list, with its early [return]. *)
Fixpoint first_matching_rule (rules : list rule) (content : str)
  : option (str * str) :=
  match rules with
  | [] => None
  | (pattern, severity, reason) :: rest =>
      match search pattern content with
      | Some _ => Some (severity, reason)
      | None => first_matching_rule rest content
      end
  end.

Definition infer_minimum_severity (content : str) : option (str * str) :=
  first_matching_rule RULES content.

(** [check_file], as a function of the text read from the file. *)
Definition check_file (content : str) : res (bool * str) :=
  match parse_declared_severity content with
  | None => Ok (false, lit "Missing '- Severity: ...' line")
  | Some declared =>
      match infer_minimum_severity content with
      | None =>
          Ok (true, lit "OK: no rule trigger, declared severity '"
                      ++ declared ++ lit "' accepted")
      | Some (minimum, reason) =>
          d <- getitem SEVERITY_ORDER declared ;;;
          m <- getitem SEVERITY_ORDER minimum ;;;
          if (m <? d)%nat then
            Ok (false,
                lit "Declared '" ++ declared
                  ++ lit "' is lower than inferred minimum '" ++ minimum
                  ++ lit "'. " ++ reason)
          else
            Ok (true, lit "OK: declared '" ++ declared
                        ++ lit "' meets inferred minimum '" ++ minimum
                        ++ lit "'")
      end
  end.

(** The state of the reporting loop of [main]: the lines printed so
    far and the [has_failures] flag. *)
Record scan_state : Type :=
  ScanState { printed : list str; has_failures : bool }.

(** One iteration of the loop, for a file given by its path and its
    text. *)
Definition scan_step (st : scan_state) (file : str * str)
  : res scan_state :=
  let '(file_path, content) := file in
  '(ok, message) <- check_file content ;;;
  let status := if ok then lit "PASS" else lit "FAIL" in
  Ok (ScanState
        (printed st ++ [lit "[" ++ status ++ lit "] " ++ file_path
                          ++ lit ": " ++ message])
        (if negb ok then true else has_failures st)).

Fixpoint scan (st : scan_state) (files : list (str * str))
  : res scan_state :=
  match files with
  | [] => Ok st
  | file :: rest => st' <- scan_step st file ;;; scan st' rest
  end.

(** [main] from the point where [files] is known: the printed lines
    and the exit status.  Each file is given by its path and by the
    text that [read_text] returns for it. *)
Definition main (files : list (str * str)) : res (list str * Z) :=
  match files with
  | [] => Ok ([lit "No issue files found."], 0%Z)
  | _ =>
      st <- scan (ScanState [] false) files ;;;
      Ok (printed st, if has_failures st then 1%Z else 0%Z)
  end.

End SeverityGuard.


(** ** Helpers shared by the two rendering scripts *)

(** [sep.join(items)] *)
Fixpoint join (sep : str) (items : list str) : str :=
  match items with
  | [] => []
  | [x] => x
  | x :: rest => x ++ sep ++ join sep rest
  end.

(** Decimal rendering of a natural number, as [str(n)] or [f"{n}"]. *)
Definition str_of_nat (n : nat) : str :=
  lit (DecimalString.NilEmpty.string_of_uint (Nat.to_uint n)).

(** Python's [sorted]: the sort is guaranteed stable, which fixes its
    result; it is defined here by stable insertion, with [le x y] the
    comparison "x is not greater than y" on the sort keys. *)
Section Sorted.
Context {A : Type} (le : A -> A -> bool).

Fixpoint insert_sorted (x : A) (l : list A) : list A :=
  match l with
  | [] => [x]
  | y :: l' => if le x y then x :: y :: l' else y :: insert_sorted x l'
  end.

Definition sorted (l : list A) : list A :=
  List.fold_right insert_sorted [] l.

End Sorted.

(** [sorted(items, key=key)] for keys that are natural numbers. *)
Definition key_le {A : Type} (key : A -> nat) (x y : A) : bool :=
  (key x <=? key y)%nat.

Definition sorted_by {A : Type} (key : A -> nat) (items : list A) : list A :=
  sorted (key_le key) items.

(** ** a11y_report_scaffold.py *)

Module ReportScaffold.

(** Decoded JSON, as returned by [json.loads]. *)
#[warnings="-register-all"] Inductive json : Type :=
| JNull
| JBool (b : bool)
| JNumber (mantissa exponent : Z)
| JStr (s : str)
| JArr (items : list json)
| JObj (d : gmap (list N) json).

Definition REQUIRED_KEYS : list str :=
  [ lit "id"; lit "title"; lit "severity"; lit "wcag"; lit "area";
    lit "url"; lit "selector"; lit "impact"; lit "reproduction";
    lit "actual"; lit "expected"; lit "recommended_fix" ].

(** [key in d] *)
Definition contains (d : gmap (list N) json) (key : str) : bool :=
  match d !! key with Some _ => true | None => false end.

(** The keys of [REQUIRED_KEYS] that a finding does not have, in the
    order of [REQUIRED_KEYS]. *)
Definition missing_keys (finding : gmap (list N) json) : list str :=
  List.filter (fun key => negb (contains finding key)) REQUIRED_KEYS.

(** The validation loop of [load_findings]; [index] is the loop
    counter of [enumerate(findings, start=1)]. *)
Fixpoint validate_findings (index : nat) (findings : list json)
  : res unit :=
  match findings with
  | [] => Ok tt
  | finding :: rest =>
      match finding with
      | JObj f =>
          match missing_keys f with
          | (_ :: _) as missing =>
              Raise (ValueError
                       (lit "Finding #" ++ str_of_nat index
                          ++ lit " is missing keys: "
                          ++ join (lit ", ") missing))
          | [] =>
              match f !! lit "reproduction" with
              | Some (JArr (_ :: _)) => validate_findings (S index) rest
              | _ =>
                  Raise (ValueError
                           (lit "Finding #" ++ str_of_nat index
                              ++ lit " needs a non-empty 'reproduction' array"))
              end
          end
      | _ =>
          Raise (ValueError
                   (lit "Finding #" ++ str_of_nat index
                      ++ lit " must be an object"))
      end
  end.

(** [load_findings], as a function of the decoded payload. *)
Definition load_findings (payload : json) : res (list json) :=
  match payload with
  | JObj p =>
      match p !! lit "findings" with
      | None =>
          Raise (ValueError
                   (lit "Input must be a JSON object with a 'findings' array"))
      | Some (JArr findings) =>
          _ <- validate_findings 1 findings ;;; Ok findings
      | Some _ => Raise (ValueError (lit "'findings' must be an array"))
      end
  | _ =>
      Raise (ValueError
               (lit "Input must be a JSON object with a 'findings' array"))
  end.

(** A finding as [build_markdown] reads it: every field is text and
    [reproduction] is a list of text steps (the data model's "all
    fields are plain text").  The severity is any text. *)
Record finding : Type := Finding {
  f_id : str;
  f_title : str;
  f_severity : str;
  f_wcag : str;
  f_area : str;
  f_url : str;
  f_selector : str;
  f_impact : str;
  f_reproduction : list str;
  f_actual : str;
  f_expected : str;
  f_recommended_fix : str
}.

Definition severity_order : gmap (list N) nat :=
  {[ lit "Critical" := 0%nat; lit "High" := 1%nat;
     lit "Medium" := 2%nat; lit "Low" := 3%nat ]}.

(** The sort key [severity_order.get(str(f["severity"]), 99)]. *)
Definition sort_key (f : finding) : nat :=
  default 99%nat (severity_order !! f_severity f).

Definition sort_findings (findings : list finding) : list finding :=
  sorted_by sort_key findings.

(** The counting loop over [totals]. *)
Definition count_step (totals : gmap (list N) nat) (item : finding)
  : gmap (list N) nat :=
  let sev := f_severity item in
  match totals !! sev with
  | Some n => <[ sev := S n ]> totals
  | None => totals
  end.

Definition count_totals (findings : list finding) : gmap (list N) nat :=
  List.fold_left count_step findings
    {[ lit "Critical" := 0%nat; lit "High" := 0%nat;
       lit "Medium" := 0%nat; lit "Low" := 0%nat ]}.

(** The table row appended for one finding. *)
Definition table_row (f : finding) : str :=
  lit "| " ++ f_id f ++ lit " | " ++ f_severity f ++ lit " | "
    ++ f_wcag f ++ lit " | " ++ f_area f ++ lit " | " ++ f_impact f
    ++ lit " |".

(** The numbered reproduction steps; [step_index] counts from the
    given start. *)
Fixpoint append_steps (lines : list str) (step_index : nat)
         (steps : list str) : list str :=
  match steps with
  | [] => lines
  | step :: rest =>
      append_steps (lines ++ [str_of_nat step_index ++ lit ". " ++ step])
        (S step_index) rest
  end.

(** The body of the issue-details loop: the lines appended for one
    finding. *)
Definition append_detail (lines : list str) (f : finding) : list str :=
  let lines := lines ++ [lit "### " ++ f_id f ++ lit " - " ++ f_title f] in
  let lines := lines ++ [[]] in
  let lines := lines ++ [lit "- Severity: " ++ f_severity f] in
  let lines := lines ++ [lit "- WCAG Criterion: " ++ f_wcag f] in
  let lines := lines ++ [lit "- Affected Area: " ++ f_area f] in
  let lines := lines ++ [lit "- URL: " ++ f_url f] in
  let lines := lines ++ [lit "- Selector/Component: " ++ f_selector f] in
  let lines := lines ++ [[]] in
  let lines := lines ++ [lit "**Reproduction**"] in
  let lines := append_steps lines 1 (f_reproduction f) in
  let lines := lines ++ [[]] in
  let lines := lines ++ [lit "**Actual Behavior**"] in
  let lines := lines ++ [f_actual f] in
  let lines := lines ++ [[]] in
  let lines := lines ++ [lit "**Expected Behavior**"] in
  let lines := lines ++ [f_expected f] in
  let lines := lines ++ [[]] in
  let lines := lines ++ [lit "**User Impact**"] in
  let lines := lines ++ [f_impact f] in
  let lines := lines ++ [[]] in
  let lines := lines ++ [lit "**Recommended Fix**"] in
  let lines := lines ++ [f_recommended_fix f] in
  lines ++ [[]].

(** The [lines] list of [build_markdown] just before the final join;
    [today] is [date.today().isoformat()]. *)
Definition build_lines (findings : list finding)
           (project scope wcag_target auditor today : str)
  : res (list str) :=
  let findings := sort_findings findings in
  let totals := count_totals findings in
  let lines : list str := [] in
  let lines := lines ++ [lit "# Accessibility Report - " ++ project] in
  let lines := lines ++ [[]] in
  let lines := lines ++ [lit "## 1. Executive Summary"] in
  let lines := lines ++ [[]] in
  let lines := lines ++ [lit "- Date: " ++ today] in
  let lines := lines ++ [lit "- Auditor: " ++ auditor] in
  let lines := lines ++ [lit "- Scope: " ++ scope] in
  let lines := lines ++ [lit "- Target: " ++ wcag_target] in
  let lines :=
    lines ++ [lit "- Total findings: " ++ str_of_nat (length findings)] in
  critical <- getitem totals (lit "Critical") ;;;
  high <- getitem totals (lit "High") ;;;
  medium <- getitem totals (lit "Medium") ;;;
  low <- getitem totals (lit "Low") ;;;
  let lines :=
    lines ++ [lit "- Severity split: Critical " ++ str_of_nat critical
                ++ lit ", High " ++ str_of_nat high
                ++ lit ", Medium " ++ str_of_nat medium
                ++ lit ", Low " ++ str_of_nat low] in
  let lines := lines ++ [[]] in
  let lines := lines ++ [lit "## 2. Findings Table"] in
  let lines := lines ++ [[]] in
  let lines := lines ++ [lit "| ID | Severity | WCAG | Area | Short Impact |"] in
  let lines := lines ++ [lit "|---|---|---|---|---|"] in
  let lines :=
    List.fold_left (fun lines f => lines ++ [table_row f]) findings lines in
  let lines := lines ++ [[]] in
  let lines := lines ++ [lit "## 3. Issue Details"] in
  let lines := lines ++ [[]] in
  let lines := List.fold_left append_detail findings lines in
  let lines := lines ++ [lit "## 4. Remediation Plan"] in
  let lines := lines ++ [[]] in
  let lines :=
    lines ++ [lit "- Immediate: Fix all Critical and High findings first."] in
  let lines :=
    lines ++ [lit "- Current release: Resolve remaining Medium findings tied to affected flows."] in
  let lines :=
    lines ++ [lit "- Backlog: Track Low findings and close during related component updates."] in
  let lines := lines ++ [[]] in
  let lines := lines ++ [lit "## 5. Retest Checklist"] in
  let lines := lines ++ [[]] in
  let lines :=
    lines ++ [lit "- Verify each fixed issue with keyboard-only navigation."] in
  let lines := lines ++ [lit "- Verify with screen reader spot-check."] in
  let lines :=
    lines ++ [lit "- Re-run automated checks and compare diffs."] in
  let lines :=
    lines ++ [lit "- Attach updated evidence for each closed issue."] in
  let lines := lines ++ [[]] in
  Ok lines.

Definition build_markdown (findings : list finding)
           (project scope wcag_target auditor today : str) : res str :=
  lines <- build_lines findings project scope wcag_target auditor today ;;;
  Ok (join nl lines).

End ReportScaffold.

(** ** The fragment of [pathlib] used by the scripts *)

Module Pathlib.

(** A file is modelled by the text that its bytes decode to in UTF-8.
    [path.write_text(text, encoding="utf-8")] on a POSIX system stores
    the text as it is; it raises [UnicodeEncodeError], [None] here, when
    the text holds a surrogate code point. *)
Definition is_surrogate (c : char) : bool := (55296 <=? c) && (c <=? 57343).

Definition write_text (text : str) : option str :=
  if List.existsb is_surrogate text then None else Some text.

(** [path.read_text(encoding="utf-8")] opens the file with universal
    newlines: a carriage return followed by a line feed, and any other
    carriage return, is read as one line feed. *)
Fixpoint universal_newlines (data : str) : str :=
  match data with
  | [] => []
  | c :: rest =>
      if c =? 13 then
        10 :: match rest with
              | c' :: rest' =>
                  if c' =? 10 then universal_newlines rest'
                  else universal_newlines rest
              | [] => []
              end
      else c :: universal_newlines rest
  end.

Definition read_text (data : str) : str := universal_newlines data.





End Pathlib.

(** ** issue_from_template.py *)

Module IssueTemplate.

(** [x <= y] on [str]: lexicographic order on code points.  Paths of
    one directory compare as their names do. *)
Fixpoint str_le (x y : str) : bool :=
  match x, y with
  | [], _ => true
  | _ :: _, [] => false
  | a :: x', b :: y' =>
      if a <? b then true
      else if b <? a then false
      else str_le x' y'
  end.

(** [name.rfind(c)] *)
Fixpoint rfind (c : char) (name : str) : option nat :=
  match name with
  | [] => None
  | a :: rest =>
      match rfind c rest with
      | Some i => Some (S i)
      | None => if a =? c then Some 0%nat else None
      end
  end.

(** [PurePath.stem] of a file name: the name without its last suffix. *)
Definition stem (name : str) : str :=
  match rfind 46 name with
  | Some i =>
      if (0 <? i)%nat && (i <? length name - 1)%nat then take i name
      else name
  | None => name
  end.

(** [s.split(sep)] for a one-character separator. *)
Fixpoint split (sep : char) (s : str) : list str :=
  match s with
  | [] => [[]]
  | c :: s' =>
      if c =? sep then [] :: split sep s'
      else
        match split sep s' with
        | field :: fields => (c :: field) :: fields
        | [] => [[c]]
        end
  end.

(** The ASCII digits. *)
Definition is_digit (c : char) : bool := (48 <=? c) && (c <=? 57).

(** [int(text)] in base 10, [None] standing for [ValueError].
    Surrounding whitespace is ignored, one sign is allowed, and single
    underscores may separate digits.  A digit is any decimal digit of
    Unicode (general category Nd), read with its decimal value, as
    [Py_UNICODE_TODECIMAL] does; the table is that of Unicode 14.0, the
    version of Python 3.11.  Every range holds consecutive runs of the
    ten digits 0 to 9. *)
Definition decimal_ranges : list (N * N) :=
  [ (48, 57); (1632, 1641); (1776, 1785); (1984, 1993); (2406, 2415);
    (2534, 2543); (2662, 2671); (2790, 2799); (2918, 2927); (3046, 3055);
    (3174, 3183); (3302, 3311); (3430, 3439); (3558, 3567); (3664, 3673);
    (3792, 3801); (3872, 3881); (4160, 4169); (4240, 4249); (6112, 6121);
    (6160, 6169); (6470, 6479); (6608, 6617); (6784, 6793); (6800, 6809);
    (6992, 7001); (7088, 7097); (7232, 7241); (7248, 7257); (42528, 42537);
    (43216, 43225); (43264, 43273); (43472, 43481); (43504, 43513);
    (43600, 43609); (44016, 44025); (65296, 65305); (66720, 66729);
    (68912, 68921); (69734, 69743); (69872, 69881); (69942, 69951);
    (70096, 70105); (70384, 70393); (70736, 70745); (70864, 70873);
    (71248, 71257); (71360, 71369); (71472, 71481); (71904, 71913);
    (72016, 72025); (72784, 72793); (73040, 73049); (73120, 73129);
    (92768, 92777); (92864, 92873); (93008, 93017); (120782, 120831);
    (123200, 123209); (123632, 123641); (125264, 125273);
    (130032, 130041) ].

Definition to_decimal (c : char) : option N :=
  (fun range : N * N => (c - range.1) mod 10)
    <$> List.find (fun range : N * N => (range.1 <=? c) && (c <=? range.2))
          decimal_ranges.

Definition int_space (c : char) : bool :=
  ((9 <=? c) && (c <=? 13)) || (c =? 32) || ((127 <? c) && Re.is_space c).

Fixpoint lstrip (s : str) : str :=
  match s with
  | c :: s' => if int_space c then lstrip s' else s
  | [] => []
  end.

Definition strip (s : str) : str := rev (lstrip (rev (lstrip s))).

Fixpoint digits_value (acc : Z) (after_digit : bool) (s : str)
  : option Z :=
  match s with
  | [] => if after_digit then Some acc else None
  | c :: s' =>
      match to_decimal c with
      | Some d => digits_value (10 * acc + Z.of_N d)%Z true s'
      | None =>
          if (c =? 95) && after_digit then digits_value acc false s'
          else None
      end
  end.

Definition int (text : str) : option Z :=
  match strip text with
  | 43 :: digits => digits_value 0 false digits
  | 45 :: digits => Z.opp <$> digits_value 0 false digits
  | digits => digits_value 0 false digits
  end.

(** [f"{number:03d}"] *)
Definition zero_pad (width : nat) (digits : str) : str :=
  replicate (width - length digits) 48 ++ digits.

Definition format_03d (number : Z) : str :=
  if (number <? 0)%Z then
    45 :: zero_pad 2 (str_of_nat (Z.to_nat (- number)))
  else zero_pad 3 (str_of_nat (Z.to_nat number)).

(** [next_issue_id]; [matched] holds the names of the files of
    [out_dir] that [out_dir.glob(f"{prefix}-*.md")] yields. *)
Definition next_issue_id (matched : list str) (prefix : str) : res str :=
  let existing := sorted str_le matched in
  match existing with
  | [] => Ok (prefix ++ lit "-001")
  | _ :: _ =>
      match split 45 (stem (List.last existing [])) !! 1%nat with
      | None => Raise IndexError
      | Some last =>
          let number :=
            match int last with
            | Some n => n
            | None => Z.of_nat (length existing)
            end in
          Ok (prefix ++ lit "-" ++ format_03d (number + 1))
      end
  end.


Definition ALLOWED_SEVERITIES : gset (list N) :=
  {[ lit "Critical"; lit "High"; lit "Medium"; lit "Low" ]}.

(** [s.lstrip(chars)] and [s.strip(chars)], the characters to remove
    given as a predicate. *)
Fixpoint lstrip_chars (p : char -> bool) (s : str) : str :=
  match s with
  | c :: s' => if p c then lstrip_chars p s' else s
  | [] => []
  end.

Definition strip_chars (p : char -> bool) (s : str) : str :=
  rev (lstrip_chars p (rev (lstrip_chars p s))).

(** [s.strip()]: whitespace is what [str.isspace] accepts, the same
    characters as [\s]. *)
Definition str_strip (s : str) : str := strip_chars Re.is_space s.

(** [s.lower()], one character at a time.  The ASCII capitals, U+0130
    and U+212A are the only characters whose lower-case form holds a
    character of a-z or 0-9, and their images are the exact ones.  Any
    other cased character lowers to characters outside ASCII; it is
    left as it is here, a difference that the substitution in
    [slugify] erases. *)
Definition lower_char (c : char) : str :=
  if Re.is_ascii_upper c then [c + 32]
  else if c =? 304 then [105; 775]
  else if c =? 8490 then [107]
  else [c].

Definition lower (s : str) : str := List.flat_map lower_char s.

(** [re.sub(r"[^a-z0-9]+", "-", value)]: every maximal run of
    characters outside a-z and 0-9 becomes one hyphen.  [in_run] tells
    that the hyphen of the current run is already written. *)
Definition is_slug_char (c : char) : bool := Re.is_ascii_lower c || is_digit c.

Fixpoint sub_non_alnum (in_run : bool) (value : str) : str :=
  match value with
  | [] => []
  | c :: rest =>
      if is_slug_char c then c :: sub_non_alnum false rest
      else if in_run then sub_non_alnum true rest
      else 45 :: sub_non_alnum true rest
  end.

Definition slugify (value : str) : str :=
  let value := lower (str_strip value) in
  let value := sub_non_alnum false value in
  match strip_chars (fun c => c =? 45) value with
  | [] => lit "issue"
  | slug => slug
  end.

(** The parsed command line, as [build_issue_markdown] and [main] read
    it. *)
Record args : Type := Args {
  a_title : str;
  a_severity : str;
  a_wcag : str;
  a_level : str;
  a_area : str;
  a_url : str;
  a_selector : str;
  a_repro : str;
  a_actual : str;
  a_expected : str;
  a_impact : str;
  a_fix : str;
  a_evidence : str;
  a_rationale : str;
  a_core_blocked : str;
  a_workaround : str;
  a_scope_impact : str;
  a_release_recommendation : str;
  a_prefix : str
}.

(** The reproduction steps: the fields of [args.repro] between [|],
    stripped, without the blank ones; a placeholder when none is left. *)
Definition repro_steps (repro : str) : list str :=
  match
    List.map str_strip
      (List.filter (fun step => negb (bool_decide (str_strip step = [])))
         (split 124 repro))
  with
  | [] => [lit "Reproduction steps not provided."]
  | steps => steps
  end.

Definition build_issue_lines (a : args) (issue_id : str) : list str :=
  let steps := repro_steps (a_repro a) in
  let lines : list str := [] in
  let lines := lines ++ [lit "# Accessibility Issue"] in
  let lines := lines ++ [[]] in
  let lines := lines ++ [lit "Use this template for each audit finding."] in
  let lines := lines ++ [[]] in
  let lines := lines ++ [lit "## Issue"] in
  let lines := lines ++ [[]] in
  let lines := lines ++ [lit "- ID: " ++ issue_id] in
  let lines := lines ++ [lit "- Title: " ++ a_title a] in
  let lines := lines ++ [lit "- Severity: " ++ a_severity a] in
  let lines := lines ++ [lit "- WCAG Criterion: " ++ a_wcag a] in
  let lines := lines ++ [lit "- WCAG Level: " ++ a_level a] in
  let lines := lines ++ [lit "- Affected Area: " ++ a_area a] in
  let lines := lines ++ [[]] in
  let lines := lines ++ [lit "## Reproduction"] in
  let lines := lines ++ [[]] in
  let lines := ReportScaffold.append_steps lines 1 steps in
  let lines := lines ++ [[]] in
  let lines := lines ++ [lit "## Actual Behavior"] in
  let lines := lines ++ [[]] in
  let lines := lines ++ [a_actual a] in
  let lines := lines ++ [[]] in
  let lines := lines ++ [lit "## Expected Behavior"] in
  let lines := lines ++ [[]] in
  let lines := lines ++ [a_expected a] in
  let lines := lines ++ [[]] in
  let lines := lines ++ [lit "## User Impact"] in
  let lines := lines ++ [[]] in
  let lines := lines ++ [a_impact a] in
  let lines := lines ++ [[]] in
  let lines := lines ++ [lit "## Severity Rationale"] in
  let lines := lines ++ [[]] in
  let lines :=
    lines ++ [lit "- Why this severity is correct: " ++ a_rationale a] in
  let lines :=
    lines ++ [lit "- Is a core user task blocked? " ++ a_core_blocked a] in
  let lines :=
    lines ++ [lit "- Is there a reasonable workaround? " ++ a_workaround a] in
  let lines := lines ++ [lit "- Scope of impact: " ++ a_scope_impact a] in
  let lines :=
    lines
      ++ [lit "- Release recommendation: " ++ a_release_recommendation a] in
  let lines := lines ++ [[]] in
  let lines := lines ++ [lit "## Evidence"] in
  let lines := lines ++ [[]] in
  let lines := lines ++ [lit "- URL: " ++ a_url a] in
  let lines := lines ++ [lit "- Screenshot / recording: " ++ a_evidence a] in
  let lines :=
    lines ++ [lit "- DOM selector / component ID: " ++ a_selector a] in
  let lines := lines ++ [lit "- Tool output (if any):"] in
  let lines := lines ++ [[]] in
  let lines := lines ++ [lit "## Recommended Fix"] in
  let lines := lines ++ [[]] in
  let lines := lines ++ [a_fix a] in
  let lines := lines ++ [[]] in
  let lines := lines ++ [lit "## QA Retest Notes"] in
  let lines := lines ++ [[]] in
  let lines := lines ++ [lit "- Retest date:"] in
  let lines := lines ++ [lit "- Retested by:"] in
  let lines := lines ++ [lit "- Status: Pass | Fail | Needs follow-up"] in
  let lines := lines ++ [lit "- Notes:"] in
  lines ++ [[]].

Definition build_issue_markdown (a : args) (issue_id : str) : str :=
  join nl (build_issue_lines a issue_id).

(** [main] once the command line is parsed and the directory exists:
    the name of the file written in [out_dir] and its text.  [matched]
    is as for [next_issue_id]. *)
Definition main (matched : list str) (a : args) : res (str * str) :=
  issue_id <- next_issue_id matched (a_prefix a) ;;;
  let slug := slugify (a_title a) in
  let output := issue_id ++ lit "-" ++ slug ++ lit ".md" in
  Ok (output, build_issue_markdown a issue_id).

End IssueTemplate.


(** ** Notions used in the statements *)

(** The character before the cursor once [w] has been read. *)
Definition last_char (prev : option N) (w : str) : option N :=
  match last w with
  | Some c => Some c
  | None => prev
  end.

(** [w in text] *)
Definition contains (w text : str) : Prop :=
  exists before after, text = before ++ w ++ after.

(** [phrase] occurs in [text] up to the case folding of re.IGNORECASE. *)
Definition contains_ignorecase (phrase text : str) : Prop :=
  exists before w after,
    text = before ++ w ++ after
    /\ Forall2 (fun p c => Re.ignorecase_eq p c = true) phrase w.

(** The messages of [check_file]. *)
Definition missing_message : str := lit "Missing '- Severity: ...' line".

Definition accepted_message (declared : str) : str :=
  lit "OK: no rule trigger, declared severity '" ++ declared
    ++ lit "' accepted".

Definition below_floor_message (declared minimum reason : str) : str :=
  lit "Declared '" ++ declared ++ lit "' is lower than inferred minimum '"
    ++ minimum ++ lit "'. " ++ reason.

Definition meets_floor_message (declared minimum : str) : str :=
  lit "OK: declared '" ++ declared ++ lit "' meets inferred minimum '"
    ++ minimum ++ lit "'".

(** The rationales of the three rules. *)
Definition blocker_reason : str :=
  lit "Issue text indicates a blocker for core user tasks.".
Definition critical_flow_reason : str :=
  lit "Issue impacts critical flow or key assistive technology behavior.".
Definition barrier_reason : str :=
  lit "Issue indicates a notable accessibility barrier.".

(** The rank of a severity name. *)
Definition rank (severity : str) : option nat :=
  SeverityGuard.SEVERITY_ORDER !! severity.

(** The outcome of comparing a declared severity with the floor found
    by the rule engine, if any. *)
Definition floor_verdict (declared : str) (floor : option (str * str))
  : bool * str :=
  match floor with
  | None => (true, accepted_message declared)
  | Some (minimum, reason) =>
      match rank declared, rank minimum with
      | Some d, Some m =>
          if (d <=? m)%nat then (true, meets_floor_message declared minimum)
          else (false, below_floor_message declared minimum reason)
      | _, _ => (false, [])
      end
  end.

(** What [check_file] returns for a text. *)
Definition verdict (content : str) : bool * str :=
  match SeverityGuard.check_file content with
  | Ok r => r
  | Raise _ => (false, [])
  end.

(** The line that [main] prints for a file. *)
Definition report_line (file : str * str) : str :=
  lit "[" ++ (if (verdict file.2).1 then lit "PASS" else lit "FAIL")
    ++ lit "] " ++ file.1 ++ lit ": " ++ (verdict file.2).2.

(** Sample documents. *)
Definition doc_high_checkout_trap : str :=
  lit "- Severity: High" ++ nl ++ lit "Keyboard trap in the checkout dialog".

Definition doc_low_checkout : str :=
  lit "- Severity: Low" ++ nl ++ lit "The checkout button has no name".

Definition doc_two_severity_lines : str :=
  lit "- Severity: High" ++ nl ++ lit "- Severity: Low" ++ nl
    ++ lit "Payment form rejects keyboard input" ++ nl.

Definition doc_trap_and_contrast : str :=
  lit "- Severity: Critical" ++ nl
    ++ lit "Low contrast modal is a keyboard trap".

(** The four severity names of the report. *)
Definition severity_names : list str :=
  [lit "Critical"; lit "High"; lit "Medium"; lit "Low"].

Definition recognized (f : ReportScaffold.finding) : bool :=
  bool_decide (In (ReportScaffold.f_severity f) severity_names).

Definition has_severity (name : str) (f : ReportScaffold.finding) : bool :=
  bool_decide (ReportScaffold.f_severity f = name).

Definition has_key (k : nat) (f : ReportScaffold.finding) : bool :=
  (ReportScaffold.sort_key f =? k)%nat.

(** The sections of the rendered report, in the order of the source. *)
Definition summary_lines (project scope wcag_target auditor today : str)
           (total critical high medium low : nat) : list str :=
  [ lit "# Accessibility Report - " ++ project;
    [];
    lit "## 1. Executive Summary";
    [];
    lit "- Date: " ++ today;
    lit "- Auditor: " ++ auditor;
    lit "- Scope: " ++ scope;
    lit "- Target: " ++ wcag_target;
    lit "- Total findings: " ++ str_of_nat total;
    lit "- Severity split: Critical " ++ str_of_nat critical
      ++ lit ", High " ++ str_of_nat high
      ++ lit ", Medium " ++ str_of_nat medium
      ++ lit ", Low " ++ str_of_nat low;
    [] ].

Definition table_heading : list str :=
  [ lit "## 2. Findings Table";
    [];
    lit "| ID | Severity | WCAG | Area | Short Impact |";
    lit "|---|---|---|---|---|" ].

Definition details_heading : list str :=
  [ []; lit "## 3. Issue Details"; [] ].

Definition closing_sections : list str :=
  [ lit "## 4. Remediation Plan";
    [];
    lit "- Immediate: Fix all Critical and High findings first.";
    lit "- Current release: Resolve remaining Medium findings tied to affected flows.";
    lit "- Backlog: Track Low findings and close during related component updates.";
    [];
    lit "## 5. Retest Checklist";
    [];
    lit "- Verify each fixed issue with keyboard-only navigation.";
    lit "- Verify with screen reader spot-check.";
    lit "- Re-run automated checks and compare diffs.";
    lit "- Attach updated evidence for each closed issue.";
    [] ].

(** The detail subsection of one finding. *)
Definition detail_block (f : ReportScaffold.finding) : list str :=
  ReportScaffold.append_detail [] f.

(** A report with the given summary, table rows and detail
    subsections. *)
Definition report_lines (summary rows : list str) (details : list (list str))
  : list str :=
  summary ++ table_heading ++ rows ++ details_heading ++ concat details
    ++ closing_sections.

(** Sample findings collections. *)
Definition sample_finding (id severity : string) : ReportScaffold.finding :=
  ReportScaffold.Finding (lit id) (lit "Title") (lit severity) (lit "1.4.3")
    (lit "Header") (lit "https://example.org/") (lit "#nav")
    (lit "Impact") [lit "Open the page"] (lit "Actual") (lit "Expected")
    (lit "Fix").

Definition sample_findings : list ReportScaffold.finding :=
  [ sample_finding "A11Y-001" "Blocker"; sample_finding "A11Y-002" "Low";
    sample_finding "A11Y-003" "Critical"; sample_finding "A11Y-004" "Minor";
    sample_finding "A11Y-005" "Low" ].

(** An element of the findings array that is a record without some
    required key. *)
Definition lacks_keys (j : ReportScaffold.json) : Prop :=
  exists f, j = ReportScaffold.JObj f /\ ReportScaffold.missing_keys f <> [].

(** Sample payloads. *)
Definition complete_finding : gmap (list N) ReportScaffold.json :=
  <[ lit "reproduction" := ReportScaffold.JArr [ReportScaffold.JStr (lit "Open the page")] ]>
    (list_to_map
       (List.map (fun key => (key, ReportScaffold.JStr (lit "text")))
          ReportScaffold.REQUIRED_KEYS)).

Definition payload_of (findings : list ReportScaffold.json)
  : ReportScaffold.json :=
  ReportScaffold.JObj {[ lit "findings" := ReportScaffold.JArr findings ]}.

(** Three findings, the second one without [wcag] and [url]. *)
Definition payload_second_incomplete : ReportScaffold.json :=
  payload_of
    [ ReportScaffold.JObj complete_finding;
      ReportScaffold.JObj
        (delete (lit "wcag") (delete (lit "url") complete_finding));
      ReportScaffold.JObj complete_finding ].

(** Two findings: the first has every key but no reproduction step,
    the second has no key at all. *)
Definition payload_empty_steps_then_incomplete : ReportScaffold.json :=
  payload_of
    [ ReportScaffold.JObj
        (<[ lit "reproduction" := ReportScaffold.JArr [] ]> complete_finding);
      ReportScaffold.JObj ∅ ].

(** Sample directory listings for [next_issue_id]. *)
Definition issues_001_to_007 : list str :=
  [ lit "A11Y-001-missing-alt-text.md"; lit "A11Y-002-low-contrast.md";
    lit "A11Y-003-focus-lost.md"; lit "A11Y-004-no-label.md";
    lit "A11Y-005-keyboard-trap.md"; lit "A11Y-006-skip-link.md";
    lit "A11Y-007-heading-order.md" ].

Definition issues_999_and_1000 : list str :=
  [ lit "A11Y-999-low-contrast.md"; lit "A11Y-1000-focus-lost.md" ].

(** Some phrase of the list occurs in the text, in any letter case. *)
Definition mentions (phrases : list str) (content : str) : Prop :=
  exists phrase, In phrase phrases /\ contains_ignorecase phrase content.

(** The text before a position ends a line, and the text after a
    position ends the line. *)
Definition at_line_start (before : str) : Prop :=
  before = [] \/ last before = Some 10.

Definition at_line_end (after : str) : Prop :=
  after = [] \/ head after = Some 10.

(** The text holds a line that declares the severity [declared]:
    [- Severity:] at the start of a line, whitespace, one of the four
    names, whitespace, the end of a line. *)
Definition declares (declared content : str) : Prop :=
  exists before ws ws' after,
    content = before ++ lit "- Severity:" ++ ws ++ declared ++ ws' ++ after
    /\ at_line_start before
    /\ Forall (fun c => Re.is_space c = true) ws
    /\ Forall (fun c => Re.is_space c = true) ws'
    /\ at_line_end after
    /\ In declared SeverityGuard.severity_words.

(** Sample documents for the extra properties. *)
Definition doc_medium_payment : str :=
  lit "# Issue" ++ nl ++ lit "- Severity:   Medium  " ++ nl
    ++ lit "Payment form loses focus".

Definition doc_low_plain : str :=
  lit "- Severity: Low" ++ nl ++ lit "Footer link is hard to read".

(** A finding that [load_findings] accepts: a record with every
    required key whose [reproduction] is a non-empty array. *)
Definition well_formed_finding (j : ReportScaffold.json) : Prop :=
  exists f,
    j = ReportScaffold.JObj f
    /\ (forall key, In key ReportScaffold.REQUIRED_KEYS -> is_Some (f !! key))
    /\ exists step steps,
        f !! lit "reproduction"
        = Some (ReportScaffold.JArr (step :: steps)).

(** The findings of one severity, and those of no recognised
    severity, in input order. *)
Definition with_severity (name : str) (findings : list ReportScaffold.finding)
  : list ReportScaffold.finding :=
  List.filter (has_severity name) findings.

Definition unrecognized (findings : list ReportScaffold.finding)
  : list ReportScaffold.finding :=
  List.filter (fun f => negb (recognized f)) findings.

(** Sample findings, already in rank order. *)
Definition ordered_findings : list ReportScaffold.finding :=
  [ sample_finding "A11Y-003" "Critical"; sample_finding "A11Y-002" "Low";
    sample_finding "A11Y-005" "Low"; sample_finding "A11Y-001" "Blocker" ].

(** Sample payload: two records, then a string. *)
Definition payload_string_third : ReportScaffold.json :=
  payload_of
    [ ReportScaffold.JObj complete_finding;
      ReportScaffold.JObj complete_finding;
      ReportScaffold.JStr (lit "oops") ].

(** A well-formed slug: characters of a-z, 0-9 and single hyphens
    between them, not empty, no hyphen at either end. *)
Fixpoint single_hyphens (s : str) : Prop :=
  match s with
  | a :: ((b :: _) as rest) => ~ (a = 45 /\ b = 45) /\ single_hyphens rest
  | _ => True
  end.

Definition is_slug (s : str) : Prop :=
  Forall (fun c => IssueTemplate.is_slug_char c = true \/ c = 45) s
  /\ s <> []
  /\ head s <> Some 45
  /\ last s <> Some 45
  /\ single_hyphens s.

(** A file name made of the prefix, a hyphen, exactly three digits that
    spell [k], a hyphen, any text, and [.md]. *)
Definition numbered (prefix : str) (k : Z) (name : str) : Prop :=
  exists d1 d2 d3 rest,
    name = prefix ++ [45; d1; d2; d3; 45] ++ rest ++ lit ".md"
    /\ IssueTemplate.is_digit d1 = true
    /\ IssueTemplate.is_digit d2 = true
    /\ IssueTemplate.is_digit d3 = true
    /\ k = (100 * Z.of_N (d1 - 48) + 10 * Z.of_N (d2 - 48)
            + Z.of_N (d3 - 48))%Z.

Definition issues_002_and_010 : list str :=
  [ lit "A11Y-010-focus.md"; lit "A11Y-002-contrast.md" ].

(** Sample command line. *)
Definition sample_args : IssueTemplate.args :=
  IssueTemplate.Args (lit "Low contrast on Sign in") (lit "Medium")
    (lit "1.4.3") (lit "AA") (lit "Header") (lit "https://example.org/")
    (lit "#login") (lit "Open the page | | Tab to the link ")
    (lit "Actual") (lit "Expected") (lit "Impact") (lit "Fix") [] (lit "Why")
    (lit "No") (lit "Yes") (lit "Single component") (lit "Fix this release")
    (lit "A11Y").

(** Texts that signal a blocker in the words of the rule list, without
    a phrase of the first pattern. *)
Definition doc_inaccessible_authentication : str :=
  lit "Inaccessible authentication page".

Definition doc_core_task_cannot_be_completed : str :=
  lit "Core task cannot be completed by keyboard users".

(** The rank of a severity in the report: Critical 0, High 1, Medium 2,
    Low 3, any other text 99. *)
Definition severity_rank (severity : str) : nat :=
  if decide (severity = lit "Critical") then 0
  else if decide (severity = lit "High") then 1
  else if decide (severity = lit "Medium") then 2
  else if decide (severity = lit "Low") then 3
  else 99.

Definition rank_le (a b : ReportScaffold.finding) : Prop :=
  (severity_rank (ReportScaffold.f_severity a)
   <= severity_rank (ReportScaffold.f_severity b))%nat.

Definition has_rank (k : nat) (f : ReportScaffold.finding) : bool :=
  (severity_rank (ReportScaffold.f_severity f) =? k)%nat.

(** The table row of a finding, written out. *)
Definition row_text (f : ReportScaffold.finding) : str :=
  lit "| " ++ ReportScaffold.f_id f
    ++ lit " | " ++ ReportScaffold.f_severity f
    ++ lit " | " ++ ReportScaffold.f_wcag f
    ++ lit " | " ++ ReportScaffold.f_area f
    ++ lit " | " ++ ReportScaffold.f_impact f ++ lit " |".

(** The steps of a list, numbered from [index] on. *)
Fixpoint numbered_steps (index : nat) (steps : list str) : list str :=
  match steps with
  | [] => []
  | step :: rest =>
      (str_of_nat index ++ lit ". " ++ step) :: numbered_steps (S index) rest
  end.

(** The detail subsection of a finding, written out: the heading with
    the identifier and the title, the five attributes, the numbered
    reproduction steps and the four closing paragraphs. *)
Definition subsection_lines (f : ReportScaffold.finding) : list str :=
  [ lit "### " ++ ReportScaffold.f_id f ++ lit " - "
      ++ ReportScaffold.f_title f;
    [];
    lit "- Severity: " ++ ReportScaffold.f_severity f;
    lit "- WCAG Criterion: " ++ ReportScaffold.f_wcag f;
    lit "- Affected Area: " ++ ReportScaffold.f_area f;
    lit "- URL: " ++ ReportScaffold.f_url f;
    lit "- Selector/Component: " ++ ReportScaffold.f_selector f;
    [];
    lit "**Reproduction**" ]
    ++ numbered_steps 1 (ReportScaffold.f_reproduction f)
    ++ [ [];
         lit "**Actual Behavior**";
         ReportScaffold.f_actual f;
         [];
         lit "**Expected Behavior**";
         ReportScaffold.f_expected f;
         [];
         lit "**User Impact**";
         ReportScaffold.f_impact f;
         [];
         lit "**Recommended Fix**";
         ReportScaffold.f_recommended_fix f;
         [] ].

(** The placeholder of the reproduction steps, and the characters that
    make no step: whitespace and the separator. *)
Definition placeholder_step : str := lit "Reproduction steps not provided.".

Definition blank_or_bar (c : N) : bool := Re.is_space c || (c =? 124).

(** The steps written in a text: the fields between bars that hold some
    character other than whitespace, each without its surrounding
    whitespace, in the order of the text. *)
Definition written_steps (repro : str) : list str :=
  List.map IssueTemplate.str_strip
    (List.filter (fun field => negb (List.forallb Re.is_space field))
       (IssueTemplate.split 124 repro)).


(** * The matcher *)

Section ReFacts.
Import Re.
Context {A : Type}.
Implicit Types (k : cont A) (prev : option N) (s w : str) (g : option str).

Lemma last_char_cons prev c w :
  last_char prev (c :: w) = last_char (Some c) w.
Proof.
  unfold last_char. rewrite last_cons. by destruct (last w).
Qed.

Lemma last_char_app prev w1 w2 :
  last_char prev (w1 ++ w2) = last_char (last_char prev w1) w2.
Proof.
  revert prev. induction w1 as [|c w1 IH]; intros prev; [done|].
  rewrite <- app_comm_cons, !last_char_cons. apply IH.
Qed.

Lemma matches_word w prev s g k :
  matches (word w) prev (w ++ s) g k = k (last_char prev w) s g.
Proof.
  revert prev. induction w as [|c w IH]; intros prev; [done|].
  cbn [word List.fold_right matches app]. rewrite N.eqb_refl.
  fold (word w). rewrite IH, last_char_cons. done.
Qed.

Lemma matches_word_inv w prev s g k a :
  matches (word w) prev s g k = Some a ->
  exists s', s = w ++ s' /\ k (last_char prev w) s' g = Some a.
Proof.
  revert prev s. induction w as [|c w IH]; intros prev s H.
  - exists s. done.
  - cbn [word List.fold_right matches] in H. fold (word w) in H.
    destruct s as [|c' s]; [done|].
    destruct (N.eqb_spec c' c) as [->|]; [|done].
    apply IH in H as (s' & -> & H). exists s'.
    rewrite last_char_cons. done.
Qed.

Lemma matches_wordI w w' prev s g k :
  Forall2 (fun p c => ignorecase_eq p c = true) w w' ->
  matches (wordI w) prev (w' ++ s) g k = k (last_char prev w') s g.
Proof.
  intros H. revert prev. induction H as [|p c w w' Hpc _ IH]; intros prev.
  - done.
  - cbn [wordI List.fold_right matches app]. rewrite Hpc.
    fold (wordI w). rewrite IH, last_char_cons. done.
Qed.

Lemma matches_wordI_inv w prev s g k a :
  matches (wordI w) prev s g k = Some a ->
  exists w' s',
    s = w' ++ s'
    /\ Forall2 (fun p c => ignorecase_eq p c = true) w w'
    /\ k (last_char prev w') s' g = Some a.
Proof.
  revert prev s. induction w as [|p w IH]; intros prev s H.
  - exists [], s. split; [done|]. split; [constructor | done].
  - cbn [wordI List.fold_right matches] in H. fold (wordI w) in H.
    destruct s as [|c s]; [done|].
    destruct (ignorecase_eq p c) eqn:Hpc; [|done].
    apply IH in H as (w' & s' & -> & Hw & H). exists (c :: w'), s'.
    split; [done|]. split; [by constructor|].
    rewrite last_char_cons. done.
Qed.

Lemma space_star_inv prev s g k a :
  space_star prev s g k = Some a ->
  exists ws s',
    s = ws ++ s'
    /\ Forall (fun c => is_space c = true) ws
    /\ k (last_char prev ws) s' g = Some a.
Proof.
  revert prev. induction s as [|c s IH]; intros prev H.
  - exists [], []. split; [done|]. split; [constructor | done].
  - cbn [space_star] in H. destruct (is_space c) eqn:Hc.
    + destruct (space_star (Some c) s g k) as [a'|] eqn:Hrec.
      * injection H as ->. apply IH in Hrec as (ws & s' & -> & Hws & Hk).
        exists (c :: ws), s'. split; [done|]. split; [by constructor|].
        rewrite last_char_cons. done.
      * exists [], (c :: s). split; [done|]. split; [constructor | done].
    + exists [], (c :: s). split; [done|]. split; [constructor | done].
Qed.

Lemma matches_alts_inv (rs : list regex) prev s g k a :
  rs <> [] ->
  matches (alts rs) prev s g k = Some a ->
  exists r, In r rs /\ matches r prev s g k = Some a.
Proof.
  induction rs as [|r rs IH]; intros Hne H; [done|].
  destruct rs as [|r' rs].
  - exists r. split; [by left | done].
  - change (alts (r :: r' :: rs)) with (Alt r (alts (r' :: rs))) in H.
    cbn [matches] in H.
    destruct (matches r prev s g k) as [a'|] eqn:Hr.
    + injection H as ->. exists r. split; [by left | done].
    + apply IH in H as (r0 & Hin & H); [|done].
      exists r0. split; [by right | done].
Qed.

Lemma matches_alts_intro (rs : list regex) r prev s g k :
  In r rs ->
  is_Some (matches r prev s g k) ->
  is_Some (matches (alts rs) prev s g k).
Proof.
  induction rs as [|r0 rs IH]; intros Hin Hr; [done|].
  destruct rs as [|r' rs].
  - destruct Hin as [->|[]]. done.
  - change (alts (r0 :: r' :: rs)) with (Alt r0 (alts (r' :: rs))).
    cbn [matches].
    destruct (matches r0 prev s g k) as [a'|] eqn:Hr0; [done|].
    destruct Hin as [->|Hin].
    + rewrite Hr0 in Hr. by destruct Hr.
    + by apply IH.
Qed.

End ReFacts.

Section SearchFacts.
Import Re.
Implicit Types (r : regex) (prev : option N) (s : str).

Lemma search_from_unfold r prev s :
  search_from r prev s =
  match match_here r prev s with
  | Some m => Some m
  | None =>
      match s with
      | [] => None
      | c :: s' => search_from r (Some c) s'
      end
  end.
Proof. destruct s; done. Qed.

Lemma search_from_intro r prev pre s :
  is_Some (match_here r (last_char prev pre) s) ->
  is_Some (search_from r prev (pre ++ s)).
Proof.
  revert prev. induction pre as [|c pre IH]; intros prev H.
  - rewrite search_from_unfold. cbn [app].
    change (last_char prev []) with prev in H.
    destruct H as [m ->]. done.
  - rewrite search_from_unfold.
    destruct (match_here r prev ((c :: pre) ++ s)); [done|].
    cbn [app]. apply IH. by rewrite last_char_cons in H.
Qed.

Lemma search_from_inv r prev s m :
  search_from r prev s = Some m ->
  exists pre s',
    s = pre ++ s' /\ match_here r (last_char prev pre) s' = Some m.
Proof.
  revert prev. induction s as [|c s IH]; intros prev H;
    rewrite search_from_unfold in H.
  - destruct (match_here r prev []) eqn:Hm; [|done].
    exists [], []. by injection H as ->.
  - destruct (match_here r prev (c :: s)) eqn:Hm.
    + exists [], (c :: s). by injection H as ->.
    + apply IH in H as (pre & s' & -> & H).
      exists (c :: pre), s'. by rewrite last_char_cons.
Qed.

Lemma search_from_head r prev s :
  search_from r prev s = head (matches_from r prev s).
Proof.
  revert prev. induction s as [|c s IH]; intros prev;
    rewrite search_from_unfold; cbn [matches_from];
    destruct (match_here r prev _); try done.
Qed.

Lemma search_head r text : search r text = head (all_matches r text).
Proof. apply search_from_head. Qed.

(** A phrase pattern finds its phrases, and nothing else. *)
Lemma search_any_of_intro phrases phrase text :
  In phrase phrases ->
  contains_ignorecase phrase text ->
  is_Some (search (any_of phrases) text).
Proof.
  intros Hin (before & w & after & -> & Hw).
  apply search_from_intro. unfold match_here.
  apply matches_alts_intro with (r := wordI phrase).
  - by apply List.in_map.
  - rewrite (matches_wordI _ _ _ _ _ _ Hw). done.
Qed.

Lemma search_any_of_inv phrases text m :
  phrases <> [] ->
  search (any_of phrases) text = Some m ->
  exists phrase, In phrase phrases /\ contains_ignorecase phrase text.
Proof.
  intros Hne H. apply search_from_inv in H as (pre & s' & -> & H).
  unfold match_here, any_of in H.
  apply matches_alts_inv in H as (r & Hin & H).
  - apply List.in_map_iff in Hin as (phrase & <- & Hin).
    apply matches_wordI_inv in H as (w & after & -> & Hw & _).
    exists phrase. split; [done|]. by exists pre, w, after.
  - by destruct phrases.
Qed.

Lemma ignorecase_eq_refl c : ignorecase_eq c c = true.
Proof. unfold ignorecase_eq. by rewrite N.eqb_refl. Qed.

Lemma contains_contains_ignorecase w text :
  contains w text -> contains_ignorecase w text.
Proof.
  intros (before & after & ->). exists before, w, after. split; [done|].
  induction w; constructor; [apply ignorecase_eq_refl | done].
Qed.

End SearchFacts.

(** * severity_guard.py *)

Section SeverityGuardFacts.
Import Re SeverityGuard.

(** Every match of the declared-severity pattern captures one of the
    four severity names. *)
Lemma match_here_severity_line prev s m :
  match_here severity_line prev s = Some m ->
  exists declared, In declared severity_words /\ group1 m = Some declared.
Proof.
  unfold match_here, severity_line. cbn [matches]. intros H.
  assert (matches (word (lit "- Severity:")) prev s None
            (fun prev' s' g' =>
               space_star prev' s' g'
                 (fun prev'' s'' g'' =>
                    matches (one_of severity_words) prev'' s'' g''
                      (fun p t _ =>
                         space_star p t
                           (Some (take (length s'' - length t) s''))
                           (fun _ t' g3 =>
                              match t' with
                              | [] => Some (MatchObj g3)
                              | c :: _ =>
                                  if c =? 10 then Some (MatchObj g3) else None
                              end)))) = Some m) as H'.
  { destruct prev as [c|]; [destruct (c =? 10)|]; done. }
  clear H. apply matches_word_inv in H' as (s1 & -> & H).
  apply space_star_inv in H as (ws & s2 & -> & _ & H).
  unfold one_of in H. apply matches_alts_inv in H as (r & Hin & H); [|done].
  apply List.in_map_iff in Hin as (declared & <- & Hin).
  apply matches_word_inv in H as (s3 & -> & H).
  apply space_star_inv in H as (ws' & s4 & -> & _ & H).
  exists declared. split; [done|].
  assert (m = MatchObj
                (Some (take (length (declared ++ ws' ++ s4)
                             - length (ws' ++ s4))
                         (declared ++ ws' ++ s4)))) as ->.
  { destruct s4 as [|c s4]; [|destruct (c =? 10)]; congruence. }
  cbn [group1]. f_equal.
  rewrite length_app, Nat.add_sub. apply take_app_length.
Qed.

Lemma parse_declared_severity_known content declared :
  parse_declared_severity content = Some declared ->
  In declared severity_words.
Proof.
  unfold parse_declared_severity.
  destruct (search severity_line content) as [m|] eqn:Hs; [|done].
  apply search_from_inv in Hs as (pre & s' & -> & Hm).
  apply match_here_severity_line in Hm as (d & Hin & Hd).
  intros H. congruence.
Qed.

Lemma parse_declared_severity_head content :
  parse_declared_severity content
  = head (all_matches severity_line content) ≫= group1.
Proof. unfold parse_declared_severity. by rewrite search_head. Qed.

(** The rule engine, rule by rule. *)
Lemma infer_minimum_severity_unfold content :
  infer_minimum_severity content =
  match search blocker_pattern content with
  | Some _ => Some (lit "Critical", blocker_reason)
  | None =>
      match search critical_flow_pattern content with
      | Some _ => Some (lit "High", critical_flow_reason)
      | None =>
          match search barrier_pattern content with
          | Some _ => Some (lit "Medium", barrier_reason)
          | None => None
          end
      end
  end.
Proof. reflexivity. Qed.

Lemma infer_minimum_severity_known content minimum reason :
  infer_minimum_severity content = Some (minimum, reason) ->
  (minimum, reason) = (lit "Critical", blocker_reason)
  \/ (minimum, reason) = (lit "High", critical_flow_reason)
  \/ (minimum, reason) = (lit "Medium", barrier_reason).
Proof.
  rewrite infer_minimum_severity_unfold.
  destruct (search blocker_pattern content); [intros [= <- <-]; tauto|].
  destruct (search critical_flow_pattern content); [intros [= <- <-]; tauto|].
  destruct (search barrier_pattern content); [intros [= <- <-]; tauto|].
  done.
Qed.

(** [check_file] never raises: both dictionary lookups find their key. *)
Lemma check_file_floor_verdict content declared :
  parse_declared_severity content = Some declared ->
  check_file content
  = Ok (floor_verdict declared (infer_minimum_severity content)).
Proof.
  intros Hd. unfold check_file. rewrite Hd.
  apply parse_declared_severity_known in Hd.
  destruct (infer_minimum_severity content) as [[minimum reason]|] eqn:Hi;
    [|done].
  apply infer_minimum_severity_known in Hi.
  cbn [severity_words In] in Hd.
  destruct Hd as [<-|[<-|[<-|[<-|[]]]]];
    destruct Hi as [[= -> ->]|[[= -> ->]|[= -> ->]]]; reflexivity.
Qed.

Lemma check_file_missing content :
  parse_declared_severity content = None ->
  check_file content = Ok (false, missing_message).
Proof. intros Hd. unfold check_file. by rewrite Hd. Qed.

Lemma check_file_verdict content : check_file content = Ok (verdict content).
Proof.
  unfold verdict.
  destruct (parse_declared_severity content) as [declared|] eqn:Hd.
  - by rewrite (check_file_floor_verdict _ _ Hd).
  - by rewrite (check_file_missing _ Hd).
Qed.

End SeverityGuardFacts.

Section SeverityGuardClaims.
Import Re SeverityGuard.

Lemma first_matching_rule_intro content before pattern severity reason after :
  Forall (fun r : rule => search r.1.1 content = None) before ->
  is_Some (search pattern content) ->
  first_matching_rule (before ++ (pattern, severity, reason) :: after) content
  = Some (severity, reason).
Proof.
  intros Hbefore [m Hm]. induction Hbefore as [|[[p s] r] before Hp _ IH].
  - cbn [app first_matching_rule]. by rewrite Hm.
  - cbn [app first_matching_rule]. cbn in Hp. by rewrite Hp.
Qed.

Lemma first_matching_rule_inv rules content severity reason :
  first_matching_rule rules content = Some (severity, reason) ->
  exists before pattern after,
    rules = before ++ (pattern, severity, reason) :: after
    /\ Forall (fun r : rule => search r.1.1 content = None) before
    /\ is_Some (search pattern content).
Proof.
  induction rules as [|[[p s] r] rules IH]; [done|].
  cbn [first_matching_rule]. destruct (search p content) as [m|] eqn:Hp.
  - intros [= <- <-]. exists [], p, rules. by rewrite Hp.
  - intros H. apply IH in H as (before & pattern & after & -> & Hb & Hm).
    exists ((p, s, r) :: before), pattern, after.
    split; [done|]. split; [by constructor | done].
Qed.

Lemma contains_checkout_floor content :
  contains (lit "checkout") content ->
  search blocker_pattern content = None ->
  infer_minimum_severity content = Some (lit "High", critical_flow_reason).
Proof.
  intros Hc Hb. rewrite infer_minimum_severity_unfold, Hb.
  destruct (search_any_of_intro critical_flow_phrases (lit "checkout") content)
    as [m Hm].
  - by left.
  - by apply contains_contains_ignorecase.
  - unfold critical_flow_pattern. by rewrite Hm.
Qed.

(** C1, as amended.  When the declared severity parses and the rule
    engine returns a floor, [check_file] passes exactly when the rank
    of the declared severity is at most the rank of the floor (Critical
    0, High 1, Medium 2, Low 3); the failure message names the declared
    value and the floor and ends with the rationale of the matched rule.
    A document that contains "checkout" and matches none of the blocker
    phrases has floor High: declaring Low it fails, citing High, and
    declaring High or Critical it passes. *)
Theorem check_file_compares_ranks :
  (forall content declared minimum reason,
      parse_declared_severity content = Some declared ->
      infer_minimum_severity content = Some (minimum, reason) ->
      exists d m,
        rank declared = Some d /\ rank minimum = Some m
        /\ check_file content
           = Ok (if (d <=? m)%nat
                 then (true, meets_floor_message declared minimum)
                 else (false, below_floor_message declared minimum reason)))
  /\ (rank (lit "Critical") = Some 0%nat /\ rank (lit "High") = Some 1%nat
      /\ rank (lit "Medium") = Some 2%nat /\ rank (lit "Low") = Some 3%nat)
  /\ (forall content declared,
         contains (lit "checkout") content ->
         search blocker_pattern content = None ->
         parse_declared_severity content = Some declared ->
         (declared = lit "Low" ->
          check_file content
          = Ok (false,
                below_floor_message (lit "Low") (lit "High")
                  critical_flow_reason))
         /\ (declared = lit "High" \/ declared = lit "Critical" ->
             check_file content
             = Ok (true, meets_floor_message declared (lit "High")))).
Proof.
  split; [|split; [by vm_compute|]].
  - intros content declared minimum reason Hd Hi.
    rewrite (check_file_floor_verdict _ _ Hd), Hi.
    apply parse_declared_severity_known in Hd.
    apply infer_minimum_severity_known in Hi.
    cbn [severity_words In] in Hd.
    destruct Hd as [<-|[<-|[<-|[<-|[]]]]];
      destruct Hi as [[= -> ->]|[[= -> ->]|[= -> ->]]];
      eexists _, _; (split; [reflexivity|]); (split; [reflexivity|]);
      reflexivity.
  - intros content declared Hc Hb Hd.
    rewrite (check_file_floor_verdict _ _ Hd),
      (contains_checkout_floor _ Hc Hb).
    split; [intros ->; reflexivity | intros [->| ->]; reflexivity].
Qed.

Lemma check_file_compares_ranks_witness :
  (exists d m,
      rank (lit "Low") = Some d /\ rank (lit "High") = Some m
      /\ check_file doc_low_checkout
         = Ok (if (d <=? m)%nat
               then (true, meets_floor_message (lit "Low") (lit "High"))
               else (false,
                     below_floor_message (lit "Low") (lit "High")
                       critical_flow_reason)))
  /\ check_file doc_low_checkout
     = Ok (false,
           below_floor_message (lit "Low") (lit "High") critical_flow_reason).
Proof.
  split.
  - apply (proj1 check_file_compares_ranks doc_low_checkout);
      vm_compute; reflexivity.
  - apply (proj2 (proj2 check_file_compares_ranks) doc_low_checkout
             (lit "Low")).
    + exists (lit "- Severity: Low" ++ nl ++ lit "The "),
        (lit " button has no name"). vm_compute. reflexivity.
    + vm_compute. reflexivity.
    + vm_compute. reflexivity.
    + reflexivity.
Defined.

(** C1 as stated fails: a document that declares High and contains
    "checkout" is rejected when its text also holds a blocker phrase,
    and the floor cited is Critical. *)
Lemma checkout_document_declaring_high_fails :
  contains (lit "checkout") doc_high_checkout_trap
  /\ parse_declared_severity doc_high_checkout_trap = Some (lit "High")
  /\ check_file doc_high_checkout_trap
     = Ok (false,
           below_floor_message (lit "High") (lit "Critical") blocker_reason).
Proof.
  split; [|split; vm_compute; reflexivity].
  exists (lit "- Severity: High" ++ nl ++ lit "Keyboard trap in the "),
    (lit " dialog").
  vm_compute. reflexivity.
Qed.

(** C2.  The rule engine walks [RULES] in the order Critical, High,
    Medium and returns the severity and rationale of the first rule
    whose pattern is found in the text, whatever the rules after it
    are; a text matching both the blocker pattern and the contrast
    pattern is classified Critical. *)
Theorem infer_first_match_wins :
  (forall content before pattern severity reason after,
      Forall (fun r : rule => search r.1.1 content = None) before ->
      is_Some (search pattern content) ->
      first_matching_rule (before ++ (pattern, severity, reason) :: after)
        content
      = Some (severity, reason))
  /\ (forall content severity reason,
         infer_minimum_severity content = Some (severity, reason) ->
         exists before pattern after,
           RULES = before ++ (pattern, severity, reason) :: after
           /\ Forall (fun r : rule => search r.1.1 content = None) before
           /\ is_Some (search pattern content))
  /\ (forall content,
         infer_minimum_severity content = first_matching_rule RULES content)
  /\ RULES = [ (blocker_pattern, lit "Critical", blocker_reason);
               (critical_flow_pattern, lit "High", critical_flow_reason);
               (barrier_pattern, lit "Medium", barrier_reason) ]
  /\ (forall content,
         is_Some (search blocker_pattern content) ->
         is_Some (search barrier_pattern content) ->
         infer_minimum_severity content
         = Some (lit "Critical", blocker_reason)).
Proof.
  split; [|split; [|split; [|split]]].
  - intros. by apply first_matching_rule_intro.
  - intros content severity reason. apply first_matching_rule_inv.
  - reflexivity.
  - reflexivity.
  - intros content [m Hm] _. by rewrite infer_minimum_severity_unfold, Hm.
Qed.

Lemma infer_first_match_wins_witness :
  first_matching_rule
    ([(barrier_pattern, lit "Medium", barrier_reason)]
       ++ (critical_flow_pattern, lit "High", critical_flow_reason) :: [])
    doc_low_checkout
  = Some (lit "High", critical_flow_reason)
  /\ (exists before pattern after,
         RULES = before ++ (pattern, lit "High", critical_flow_reason) :: after
         /\ Forall (fun r : rule => search r.1.1 doc_low_checkout = None)
              before
         /\ is_Some (search pattern doc_low_checkout))
  /\ infer_minimum_severity doc_trap_and_contrast
     = Some (lit "Critical", blocker_reason).
Proof.
  destruct infer_first_match_wins as (H1 & H2 & _ & _ & H5).
  split; [|split].
  - apply H1.
    + constructor; [vm_compute; reflexivity | constructor].
    + vm_compute. eexists. reflexivity.
  - apply H2. vm_compute. reflexivity.
  - apply H5; vm_compute; eexists; reflexivity.
Defined.

(** The floor is Critical exactly for the texts that hold a blocker
    phrase. *)
Lemma infer_critical_iff content :
  (exists reason,
      infer_minimum_severity content = Some (lit "Critical", reason))
  <-> exists phrase,
      In phrase blocker_phrases /\ contains_ignorecase phrase content.
Proof.
  rewrite infer_minimum_severity_unfold. split.
  - intros [reason H].
    destruct (search blocker_pattern content) as [m|] eqn:Hb.
    + by apply search_any_of_inv in Hb.
    + destruct (search critical_flow_pattern content);
        [by vm_compute in H|].
      destruct (search barrier_pattern content); by vm_compute in H.
  - intros (phrase & Hin & Hc).
    destruct (search_any_of_intro blocker_phrases phrase content Hin Hc)
      as [m Hm].
    unfold blocker_pattern. rewrite Hm. by eexists.
Qed.

(** C3, as amended.  A text that contains one of the four phrases of
    the first rule's pattern (core task blocked, cannot complete,
    keyboard trap, inaccessible login), in any letter case, gets the
    floor Critical. *)
Theorem blocker_phrase_gives_critical content phrase :
  In phrase
    [ lit "core task blocked"; lit "cannot complete"; lit "keyboard trap";
      lit "inaccessible login" ] ->
  contains_ignorecase phrase content ->
  infer_minimum_severity content = Some (lit "Critical", blocker_reason).
Proof.
  intros Hin Hc. rewrite infer_minimum_severity_unfold.
  destruct (search_any_of_intro blocker_phrases phrase content Hin Hc)
    as [m Hm].
  unfold blocker_pattern. by rewrite Hm.
Qed.

Lemma blocker_phrase_gives_critical_witness :
  infer_minimum_severity doc_high_checkout_trap
  = Some (lit "Critical", blocker_reason).
Proof.
  apply (blocker_phrase_gives_critical doc_high_checkout_trap
           (lit "keyboard trap")).
  - cbn. tauto.
  - exists (lit "- Severity: High" ++ nl), (lit "Keyboard trap"),
      (lit " in the checkout dialog").
    split; [vm_compute; reflexivity|].
    repeat constructor.
Defined.

(** C3 as worded fails.  A text about inaccessible authentication
    holds no phrase of the first pattern, which spells that blocker
    "inaccessible login": the word "authentication" gives it the floor
    High of the second rule.  A text saying that a core task cannot be
    completed holds neither "core task blocked" nor "cannot complete"
    and gets no floor at all. *)
Lemma blocker_wording_not_critical :
  infer_minimum_severity doc_inaccessible_authentication
  = Some (lit "High", critical_flow_reason)
  /\ infer_minimum_severity doc_core_task_cannot_be_completed = None.
Proof. split; by vm_compute. Qed.

(** C4, as amended.  A document with no parseable declared-severity
    line fails with the missing-line message.  A document with one or
    more such lines is compared with the rule engine's floor using the
    severity of its first such line; further lines are not looked at. *)
Theorem check_file_uses_first_severity_line content :
  match all_matches severity_line content with
  | [] => check_file content = Ok (false, missing_message)
  | m :: _ =>
      exists declared,
        group1 m = Some declared
        /\ In declared severity_words
        /\ parse_declared_severity content = Some declared
        /\ check_file content
           = Ok (floor_verdict declared (infer_minimum_severity content))
  end.
Proof.
  pose proof (parse_declared_severity_head content) as Hhead.
  destruct (all_matches severity_line content) as [|m rest] eqn:Hall.
  - by apply check_file_missing.
  - cbn in Hhead.
    assert (search severity_line content = Some m) as Hs.
    { by rewrite search_head, Hall. }
    apply search_from_inv in Hs as (pre & s' & _ & Hm).
    apply match_here_severity_line in Hm as (declared & Hin & Hg).
    exists declared. rewrite Hg in Hhead.
    repeat split; try done. by apply check_file_floor_verdict.
Qed.

(** C4 as stated fails: a document with two parseable declared-severity
    lines is not rejected; the first line (High) is the one compared
    with the floor, and the check passes. *)
Lemma two_severity_lines_accepted :
  length (all_matches severity_line doc_two_severity_lines) = 2%nat
  /\ parse_declared_severity doc_two_severity_lines = Some (lit "High")
  /\ check_file doc_two_severity_lines
     = Ok (true, meets_floor_message (lit "High") (lit "High")).
Proof. by vm_compute. Qed.

Lemma scan_spec st files :
  scan st files
  = Ok (ScanState (printed st ++ List.map report_line files)
          (has_failures st
           || existsb (fun file => negb (verdict file.2).1) files)).
Proof.
  revert st. induction files as [|[file_path content] files IH]; intros st.
  - cbn. rewrite app_nil_r, orb_false_r. by destruct st.
  - cbn [scan scan_step bind]. rewrite check_file_verdict.
    destruct (verdict content) as [ok message] eqn:Hv. cbn [bind].
    rewrite IH. cbn [printed has_failures List.map existsb].
    unfold report_line at 2. cbn [fst snd]. rewrite Hv. cbn [fst snd].
    rewrite <- app_assoc. cbn [app].
    by destruct ok, (has_failures st).
Qed.

(** C8.  [main] prints one line for every file, each computed from
    that file's own text, whether or not earlier files failed; it
    returns 1 exactly when some file failed and 0 otherwise; with no
    file it prints a notice and returns 0.  [check_file] never raises. *)
Theorem main_reports_every_file files :
  main files
  = Ok (match files with
        | [] => [lit "No issue files found."]
        | _ :: _ => List.map report_line files
        end,
        if existsb (fun file => negb (verdict file.2).1) files
        then 1%Z else 0%Z)
  /\ (forall content, check_file content = Ok (verdict content))
  /\ main [] = Ok ([lit "No issue files found."], 0%Z).
Proof.
  split; [|split; [apply check_file_verdict | reflexivity]].
  destruct files as [|file files]; [reflexivity|].
  unfold main. rewrite scan_spec. reflexivity.
Qed.

End SeverityGuardClaims.

(** * Stable sorting *)

Section SortedFacts.
Context {A : Type} (key : A -> nat).

Local Abbreviation le := (key_le key).

Lemma insert_sorted_perm x l : Permutation (insert_sorted le x l) (x :: l).
Proof.
  induction l as [|y l IH]; [done|].
  cbn [insert_sorted]. destruct (le x y); [done|].
  rewrite IH. apply perm_swap.
Qed.

Lemma sorted_by_perm l : Permutation (sorted_by key l) l.
Proof.
  induction l as [|x l IH]; [done|].
  unfold sorted_by in *. cbn [sorted List.fold_right]. fold (sorted le l).
  rewrite insert_sorted_perm. by constructor.
Qed.

Lemma insert_sorted_ordered x l :
  StronglySorted (fun a b => key a <= key b)%nat l ->
  StronglySorted (fun a b => key a <= key b)%nat (insert_sorted le x l).
Proof.
  induction 1 as [|y l Hl IH Hy]; [repeat constructor|].
  cbn [insert_sorted]. unfold key_le at 1.
  destruct (Nat.leb_spec (key x) (key y)) as [Hxy|Hxy].
  - constructor; [by constructor|].
    constructor; [done|].
    eapply List.Forall_impl; [|exact Hy]. cbn. lia.
  - constructor; [done|].
    eapply Permutation_Forall; [symmetry; apply insert_sorted_perm|].
    constructor; [lia | done].
Qed.

Lemma sorted_by_ordered l :
  StronglySorted (fun a b => key a <= key b)%nat (sorted_by key l).
Proof.
  induction l as [|x l IH]; [constructor|].
  unfold sorted_by in *. cbn [sorted List.fold_right]. by apply insert_sorted_ordered.
Qed.

(** Stability: the elements of one key keep their input order. *)
Lemma insert_sorted_filter k x l :
  List.filter (fun a => key a =? k)%nat (insert_sorted le x l)
  = List.filter (fun a => key a =? k)%nat (x :: l).
Proof.
  induction l as [|y l IH]; [done|].
  cbn [insert_sorted]. unfold key_le at 1.
  destruct (Nat.leb_spec (key x) (key y)) as [Hxy|Hxy]; [done|].
  cbn [List.filter] in *. rewrite IH.
  destruct (Nat.eqb_spec (key x) k) as [Hx|Hx]; [|done].
  destruct (Nat.eqb_spec (key y) k) as [Hy|Hy]; [lia | done].
Qed.

Lemma sorted_by_stable k l :
  List.filter (fun a => key a =? k)%nat (sorted_by key l)
  = List.filter (fun a => key a =? k)%nat l.
Proof.
  induction l as [|x l IH]; [done|].
  unfold sorted_by in *. cbn [sorted List.fold_right]. fold (sorted le l).
  rewrite insert_sorted_filter. cbn [List.filter]. by rewrite IH.
Qed.

(** Where an element lands in a list made of two key ranges. *)
Lemma insert_sorted_app_l x l1 l2 :
  Forall (fun y => key x <= key y)%nat l2 ->
  insert_sorted le x (l1 ++ l2) = insert_sorted le x l1 ++ l2.
Proof.
  intros H2. induction l1 as [|y l1 IH].
  - cbn [app insert_sorted]. destruct H2 as [|y l2 Hy _]; [done|].
    cbn [insert_sorted]. unfold key_le.
    by destruct (Nat.leb_spec (key x) (key y)); [|lia].
  - cbn [app insert_sorted]. destruct (le x y); [done|]. by rewrite IH.
Qed.

Lemma insert_sorted_app_r x l1 l2 :
  Forall (fun y => key y < key x)%nat l1 ->
  insert_sorted le x (l1 ++ l2) = l1 ++ insert_sorted le x l2.
Proof.
  induction 1 as [|y l1 Hy _ IH]; [done|].
  cbn [app insert_sorted]. unfold key_le at 1.
  destruct (Nat.leb_spec (key x) (key y)); [lia|]. by rewrite IH.
Qed.

(** Sortedness and stability determine the result: whatever stable
    sorting algorithm is run, its output is that of [sorted_by]. *)
Lemma ordered_filters_eq l1 l2 :
  StronglySorted (fun a b => key a <= key b)%nat l1 ->
  StronglySorted (fun a b => key a <= key b)%nat l2 ->
  (forall k,
      List.filter (fun a => key a =? k)%nat l1
      = List.filter (fun a => key a =? k)%nat l2) ->
  l1 = l2.
Proof.
  revert l2. induction l1 as [|x l1 IH]; intros l2 H1 H2 Hf.
  - destruct l2 as [|y l2]; [done|].
    specialize (Hf (key y)). cbn in Hf. by rewrite Nat.eqb_refl in Hf.
  - destruct l2 as [|y l2].
    { specialize (Hf (key x)). cbn in Hf. by rewrite Nat.eqb_refl in Hf. }
    apply StronglySorted_inv in H1 as [H1 Hx].
    apply StronglySorted_inv in H2 as [H2 Hy].
    assert (key y <= key x)%nat as Hyx.
    { assert (In x (List.filter (fun a => key a =? key x)%nat (y :: l2)))
        as Hin.
      { rewrite <- Hf. cbn. rewrite Nat.eqb_refl. by left. }
      apply List.filter_In in Hin as [[->|Hin] _]; [lia|].
      by apply (proj1 (List.Forall_forall _ _) Hy). }
    assert (key x <= key y)%nat as Hxy.
    { assert (In y (List.filter (fun a => key a =? key y)%nat (x :: l1)))
        as Hin.
      { rewrite Hf. cbn. rewrite Nat.eqb_refl. by left. }
      apply List.filter_In in Hin as [[->|Hin] _]; [lia|].
      by apply (proj1 (List.Forall_forall _ _) Hx). }
    assert (key x = key y) as Hkey by lia.
    pose proof (Hf (key x)) as Hhead. cbn in Hhead.
    rewrite Nat.eqb_refl, <- Hkey, Nat.eqb_refl in Hhead.
    injection Hhead as -> _. f_equal. apply IH; [done | done |].
    intros k. specialize (Hf k). cbn in Hf.
    destruct (key y =? k)%nat; [by injection Hf | done].
Qed.

Lemma sorted_by_unique l l' :
  StronglySorted (fun a b => key a <= key b)%nat l' ->
  (forall k,
      List.filter (fun a => key a =? k)%nat l'
      = List.filter (fun a => key a =? k)%nat l) ->
  l' = sorted_by key l.
Proof.
  intros Hsorted Hstable.
  apply ordered_filters_eq; [done | apply sorted_by_ordered |].
  intros k. by rewrite sorted_by_stable.
Qed.

End SortedFacts.

(** * a11y_report_scaffold.py: rendering *)

Section RenderFacts.
Import ReportScaffold.

Lemma filter_length_perm {A} (P : A -> bool) (l l' : list A) :
  Permutation l l' ->
  length (List.filter P l) = length (List.filter P l').
Proof.
  induction 1 as [|x l l' _ IH|x y l|l l' l'' _ IH1 _ IH2]; cbn [List.filter].
  - done.
  - destruct (P x); cbn [length]; by rewrite IH.
  - by destruct (P x), (P y).
  - by rewrite IH1.
Qed.

Lemma severity_order_lookup (s : str) :
  severity_order !! s =
  if decide (s = lit "Critical") then Some 0%nat
  else if decide (s = lit "High") then Some 1%nat
  else if decide (s = lit "Medium") then Some 2%nat
  else if decide (s = lit "Low") then Some 3%nat
  else None.
Proof.
  unfold severity_order.
  repeat (rewrite lookup_insert; case_decide; [subst; by repeat case_decide|]).
  rewrite lookup_singleton. case_decide; [subst; by repeat case_decide|].
  by repeat case_decide.
Qed.

Lemma sort_key_recognized f : recognized f = true -> (sort_key f <= 3)%nat.
Proof.
  unfold recognized, sort_key, severity_names. rewrite severity_order_lookup.
  intros H%bool_decide_eq_true. cbn [In] in H.
  repeat case_decide; cbn; try lia. intuition congruence.
Qed.

Lemma sort_key_unrecognized f : recognized f = false -> sort_key f = 99%nat.
Proof.
  unfold recognized, sort_key, severity_names. rewrite severity_order_lookup.
  intros H%bool_decide_eq_false. cbn [In] in H.
  repeat case_decide; cbn; try done; intuition congruence.
Qed.

(** The counting loop adds, to every key of [totals], the number of
    findings of that severity, and adds no key. *)
Lemma fold_count_step_lookup (findings : list finding)
      (totals : gmap (list N) nat) (name : str) :
  List.fold_left count_step findings totals !! name
  = (fun n => n + length (List.filter (has_severity name) findings))%nat
      <$> (totals !! name).
Proof.
  revert totals. induction findings as [|f findings IH]; intros totals.
  - cbn. destruct (totals !! name); cbn; [f_equal; lia | done].
  - cbn [List.fold_left List.filter]. rewrite IH. unfold count_step.
    unfold has_severity at 2.
    destruct (totals !! f_severity f) as [n|] eqn:Hf.
    + rewrite lookup_insert. case_decide as Heq.
      * subst name. rewrite Hf, bool_decide_eq_true_2 by done.
        cbn. f_equal. lia.
      * by rewrite bool_decide_eq_false_2.
    + case_bool_decide as Heq; [|done].
      subst name. by rewrite Hf.
Qed.

Lemma count_totals_getitem (findings : list finding) (name : str) :
  In name severity_names ->
  getitem (count_totals findings) name
  = Ok (length (List.filter (has_severity name) findings)).
Proof.
  intros Hin. unfold getitem, count_totals.
  rewrite fold_count_step_lookup.
  cbn [severity_names In] in Hin.
  destruct Hin as [<-|[<-|[<-|[<-|[]]]]]; reflexivity.
Qed.

Lemma fold_left_rows (findings : list finding) (lines : list str) :
  List.fold_left (fun lines f => lines ++ [table_row f]) findings lines
  = lines ++ List.map table_row findings.
Proof.
  revert lines. induction findings as [|f findings IH]; intros lines.
  - by rewrite app_nil_r.
  - cbn [List.fold_left List.map]. rewrite IH, <- app_assoc. done.
Qed.

Lemma append_steps_app (lines : list str) (index : nat) (steps : list str) :
  append_steps lines index steps = lines ++ append_steps [] index steps.
Proof.
  revert lines index. induction steps as [|step steps IH]; intros lines index.
  - by rewrite app_nil_r.
  - cbn [append_steps]. rewrite IH. rewrite (IH ([] ++ _)).
    by rewrite <- !app_assoc.
Qed.

Lemma append_detail_app (lines : list str) (f : finding) :
  append_detail lines f = lines ++ detail_block f.
Proof.
  unfold detail_block, append_detail.
  cbv zeta. rewrite !(append_steps_app (_ ++ _)).
  rewrite <- !app_assoc. reflexivity.
Qed.

Lemma fold_left_details (findings : list finding) (lines : list str) :
  List.fold_left append_detail findings lines
  = lines ++ concat (List.map detail_block findings).
Proof.
  revert lines. induction findings as [|f findings IH]; intros lines.
  - by rewrite app_nil_r.
  - cbn [List.fold_left List.map concat].
    rewrite IH, append_detail_app, <- app_assoc. done.
Qed.

(** The shape of the rendered report. *)
Lemma build_lines_layout (findings : list finding)
      (project scope wcag_target auditor today : str) :
  build_lines findings project scope wcag_target auditor today
  = Ok (report_lines
          (summary_lines project scope wcag_target auditor today
             (length findings)
             (length (List.filter (has_severity (lit "Critical")) findings))
             (length (List.filter (has_severity (lit "High")) findings))
             (length (List.filter (has_severity (lit "Medium")) findings))
             (length (List.filter (has_severity (lit "Low")) findings)))
          (List.map table_row (sort_findings findings))
          (List.map detail_block (sort_findings findings))).
Proof.
  pose proof (sorted_by_perm sort_key findings) as Hperm.
  fold (sort_findings findings) in Hperm.
  unfold build_lines.
  rewrite !count_totals_getitem by (cbn; tauto).
  cbn [bind]. rewrite fold_left_rows, fold_left_details.
  rewrite (Permutation_length Hperm).
  rewrite !(filter_length_perm _ _ _ Hperm).
  unfold report_lines, summary_lines, table_heading, details_heading,
    closing_sections.
  rewrite <- !app_assoc. reflexivity.
Qed.

(** The sort key is the rank of the severity. *)
Lemma sort_key_rank (f : finding) :
  sort_key f = severity_rank (f_severity f).
Proof.
  unfold sort_key, severity_rank. rewrite severity_order_lookup.
  by repeat case_decide.
Qed.

Lemma has_key_rank (k : nat) (f : finding) : has_key k f = has_rank k f.
Proof. unfold has_key, has_rank. by rewrite sort_key_rank. Qed.

Lemma sort_findings_rank_le (findings : list finding) :
  StronglySorted rank_le (sort_findings findings).
Proof.
  pose proof (sorted_by_ordered sort_key findings) as Hsorted.
  fold (sort_findings findings) in Hsorted.
  induction Hsorted as [|f l _ IH Hf]; constructor; [done|].
  eapply List.Forall_impl; [|exact Hf].
  intros g Hg. unfold rank_le. by rewrite <- !sort_key_rank.
Qed.

Lemma sort_findings_rank_stable (k : nat) (findings : list finding) :
  List.filter (has_rank k) (sort_findings findings)
  = List.filter (has_rank k) findings.
Proof.
  rewrite <- !(List.filter_ext (has_key k) (has_rank k) (has_key_rank k)).
  apply sorted_by_stable.
Qed.

(** The text of a row and of a detail subsection. *)
Lemma table_row_text (f : finding) : table_row f = row_text f.
Proof. reflexivity. Qed.

Lemma append_steps_numbered (index : nat) (steps : list str) :
  append_steps [] index steps = numbered_steps index steps.
Proof.
  revert index. induction steps as [|step steps IH]; intros index; [done|].
  cbn [append_steps numbered_steps]. rewrite append_steps_app, IH. done.
Qed.

Lemma detail_block_lines (f : finding) : detail_block f = subsection_lines f.
Proof.
  unfold detail_block, append_detail, subsection_lines.
  cbv zeta. rewrite !(append_steps_app (_ ++ _)), append_steps_numbered.
  rewrite <- !app_assoc. reflexivity.
Qed.

(** The rendered report, written out. *)
Lemma build_lines_written (findings : list finding)
      (project scope wcag_target auditor today : str) :
  build_lines findings project scope wcag_target auditor today
  = Ok (report_lines
          (summary_lines project scope wcag_target auditor today
             (length findings)
             (length (with_severity (lit "Critical") findings))
             (length (with_severity (lit "High") findings))
             (length (with_severity (lit "Medium") findings))
             (length (with_severity (lit "Low") findings)))
          (List.map row_text (sort_findings findings))
          (List.map subsection_lines (sort_findings findings))).
Proof.
  rewrite build_lines_layout.
  rewrite (List.map_ext table_row row_text table_row_text).
  rewrite (List.map_ext detail_block subsection_lines detail_block_lines).
  reflexivity.
Qed.

End RenderFacts.

(** * a11y_report_scaffold.py: schema validation *)

Section LoadFacts.
Import ReportScaffold.

Lemma validate_findings_app (index : nat) (l1 l2 : list json) :
  validate_findings index (l1 ++ l2)
  = (_ <- validate_findings index l1 ;;;
     validate_findings (index + length l1) l2).
Proof.
  revert index. induction l1 as [|j l1 IH]; intros index.
  - cbn. by rewrite Nat.add_0_r.
  - cbn [app validate_findings length].
    destruct j as [| | | | |f]; try done.
    destruct (missing_keys f); [|done].
    destruct (f !! lit "reproduction") as [[| | | |[|step steps]|]|]; try done.
    rewrite IH. by rewrite Nat.add_succ_comm.
Qed.

Lemma validate_findings_missing (index : nat) (f : gmap (list N) json)
      (rest : list json) :
  missing_keys f <> [] ->
  validate_findings index (JObj f :: rest)
  = Raise (ValueError
             (lit "Finding #" ++ str_of_nat index
                ++ lit " is missing keys: "
                ++ join (lit ", ") (missing_keys f))).
Proof.
  intros Hne. cbn [validate_findings].
  destruct (missing_keys f); [congruence | done].
Qed.

(** Every exception of the validation loop is a [ValueError]. *)
Lemma validate_findings_raises (index : nat) (findings : list json) e :
  validate_findings index findings = Raise e -> exists msg, e = ValueError msg.
Proof.
  revert index. induction findings as [|j findings IH]; intros index; [done|].
  cbn [validate_findings].
  destruct j as [| | | | |f]; try (intros [= <-]; by eexists).
  destruct (missing_keys f); [|intros [= <-]; by eexists].
  destruct (f !! lit "reproduction") as [[| | | |[|step steps]|]|];
    try (intros [= <-]; by eexists).
  apply IH.
Qed.

Lemma validate_findings_lacking (index : nat) (findings : list json) :
  Exists lacks_keys findings ->
  exists msg, validate_findings index findings = Raise (ValueError msg).
Proof.
  intros H. revert index.
  induction H as [j findings (f & -> & Hf)|j findings _ IH]; intros index.
  - rewrite validate_findings_missing by done. by eexists.
  - change (j :: findings) with ([j] ++ findings).
    rewrite validate_findings_app.
    destruct (validate_findings index [j]) as [[]|e] eqn:Hj.
    + cbn [bind]. apply IH.
    + apply validate_findings_raises in Hj as [msg ->]. by eexists.
Qed.

End LoadFacts.

Section ReportClaims.
Import ReportScaffold.

Lemma missing_keys_spec (f : gmap (list N) json) (key : str) :
  In key (missing_keys f) <-> In key REQUIRED_KEYS /\ f !! key = None.
Proof.
  unfold missing_keys, contains. rewrite List.filter_In.
  destruct (f !! key); cbn; intuition congruence.
Qed.

(** C5, as amended.  A findings collection in which some record lacks
    a required key is rejected.  The loop stops at the first element
    that fails a check: when the elements before a record pass and
    that record lacks required keys, the message names its position
    and lists every required key it lacks, in the order of
    [REQUIRED_KEYS].  A collection that is accepted is returned as it
    was given. *)
Theorem load_findings_missing_keys :
  (forall (p : gmap (list N) json) (findings : list json),
      p !! lit "findings" = Some (JArr findings) ->
      Exists lacks_keys findings ->
      exists msg, load_findings (JObj p) = Raise (ValueError msg))
  /\ (forall (p : gmap (list N) json) (valid : list json)
             (f : gmap (list N) json) (rest : list json),
         p !! lit "findings" = Some (JArr (valid ++ JObj f :: rest)) ->
         validate_findings 1 valid = Ok tt ->
         missing_keys f <> [] ->
         load_findings (JObj p)
         = Raise (ValueError
                    (lit "Finding #" ++ str_of_nat (S (length valid))
                       ++ lit " is missing keys: "
                       ++ join (lit ", ") (missing_keys f))))
  /\ (forall (f : gmap (list N) json) (key : str),
         In key (missing_keys f) <-> In key REQUIRED_KEYS /\ f !! key = None)
  /\ (forall (payload : json) (findings : list json),
         load_findings payload = Ok findings ->
         exists p : gmap (list N) json,
           payload = JObj p /\ p !! lit "findings" = Some (JArr findings)).
Proof.
  split; [|split; [|split]].
  - intros p findings Hp Hex. cbn [load_findings]. rewrite Hp.
    destruct (validate_findings_lacking 1 findings Hex) as [msg ->].
    by exists msg.
  - intros p valid f rest Hp Hvalid Hf. cbn [load_findings]. rewrite Hp.
    rewrite validate_findings_app, Hvalid. cbn [bind].
    by rewrite validate_findings_missing.
  - apply missing_keys_spec.
  - intros payload findings. destruct payload as [| | | | |p]; try done.
    cbn [load_findings].
    destruct (p !! lit "findings") as [[| | | |l|]|] eqn:Hp; try done.
    destruct (validate_findings 1 l) as [[]|e]; [|done].
    intros [= ->]. by exists p.
Qed.

Lemma load_findings_missing_keys_witness :
  (exists msg, load_findings payload_second_incomplete = Raise (ValueError msg))
  /\ load_findings payload_second_incomplete
     = Raise (ValueError (lit "Finding #2 is missing keys: wcag, url"))
  /\ load_findings (payload_of [JObj complete_finding])
     = Ok [JObj complete_finding].
Proof.
  destruct load_findings_missing_keys as (H1 & H2 & _ & H4).
  split; [|split].
  - apply (H1 _ [ JObj complete_finding;
                  JObj (delete (lit "wcag")
                          (delete (lit "url") complete_finding));
                  JObj complete_finding ]).
    + reflexivity.
    + right. left. eexists. split; [reflexivity|]. by vm_compute.
  - etransitivity.
    + apply (H2 _ [JObj complete_finding]
               (delete (lit "wcag") (delete (lit "url") complete_finding))
               [JObj complete_finding]).
      * reflexivity.
      * by vm_compute.
      * by vm_compute.
    + by vm_compute.
  - destruct (load_findings (payload_of [JObj complete_finding]))
      as [findings|e] eqn:Hload; [|by vm_compute in Hload].
    destruct (H4 _ _ Hload) as (p & Hp & Hfindings).
    injection Hp as <-. rewrite lookup_singleton_eq in Hfindings.
    by injection Hfindings as <-.
Defined.

(** C5 as stated fails: the second finding lacks every required key,
    yet the message is about the first finding, which has all of them,
    and lists no key. *)
Lemma missing_keys_behind_earlier_error :
  lacks_keys (JObj ∅)
  /\ missing_keys (<[ lit "reproduction" := JArr [] ]> complete_finding) = []
  /\ load_findings payload_empty_steps_then_incomplete
     = Raise (ValueError
                (lit "Finding #1 needs a non-empty 'reproduction' array")).
Proof.
  split; [|split; by vm_compute].
  eexists. split; [reflexivity | by vm_compute].
Qed.

(** C6.  The rendered report is the summary, the table heading, one
    table row per finding, the heading of the issue details, one detail
    subsection per finding and the closing sections.  The rows and the
    subsections follow the same order: the input reordered by ascending
    severity rank (Critical 0, High 1, Medium 2, Low 3, any other
    severity 99), the findings of equal rank left in their input
    order. *)
Theorem report_sorted_by_severity (findings : list finding)
        (project scope wcag_target auditor today : str) :
  build_markdown findings project scope wcag_target auditor today
  = Ok (join nl
          (report_lines
             (summary_lines project scope wcag_target auditor today
                (length findings)
                (length (with_severity (lit "Critical") findings))
                (length (with_severity (lit "High") findings))
                (length (with_severity (lit "Medium") findings))
                (length (with_severity (lit "Low") findings)))
             (List.map row_text (sort_findings findings))
             (List.map subsection_lines (sort_findings findings))))
  /\ Permutation (sort_findings findings) findings
  /\ length (List.map row_text (sort_findings findings)) = length findings
  /\ length (List.map subsection_lines (sort_findings findings))
     = length findings
  /\ StronglySorted rank_le (sort_findings findings)
  /\ (forall k,
         List.filter (has_rank k) (sort_findings findings)
         = List.filter (has_rank k) findings).
Proof.
  pose proof (sorted_by_perm sort_key findings) as Hperm.
  fold (sort_findings findings) in Hperm.
  split; [|split; [|split; [|split; [|split]]]].
  - unfold build_markdown. by rewrite build_lines_written.
  - done.
  - by rewrite List.length_map, (Permutation_length Hperm).
  - by rewrite List.length_map, (Permutation_length Hperm).
  - apply sort_findings_rank_le.
  - intros k. apply sort_findings_rank_stable.
Qed.

Lemma has_severity_eq (f : finding) (name : str) :
  f_severity f = name -> has_severity name f = true.
Proof. intros H. by apply bool_decide_eq_true_2. Qed.

Lemma has_severity_ne (f : finding) (name name' : str) :
  f_severity f = name' -> name <> name' -> has_severity name f = false.
Proof. intros H Hne. apply bool_decide_eq_false_2. congruence. Qed.

Lemma recognized_in (f : finding) :
  In (f_severity f) severity_names -> recognized f = true.
Proof. apply bool_decide_eq_true_2. Qed.

Lemma bucket_counts (findings : list finding) :
  (length (List.filter (has_severity (lit "Critical")) findings)
   + length (List.filter (has_severity (lit "High")) findings)
   + length (List.filter (has_severity (lit "Medium")) findings)
   + length (List.filter (has_severity (lit "Low")) findings)
   + length (List.filter (fun f => negb (recognized f)) findings)
   = length findings)%nat.
Proof.
  induction findings as [|f findings IH]; [done|].
  cbn [List.filter].
  destruct (decide (f_severity f = lit "Critical")) as [H|H1].
  { rewrite (has_severity_eq f _ H), !(has_severity_ne f _ _ H),
      recognized_in
      by first [ by vm_compute | rewrite H; vm_compute; auto 10 ].
    cbn [negb length]. lia. }
  destruct (decide (f_severity f = lit "High")) as [H|H2].
  { rewrite (has_severity_eq f _ H), !(has_severity_ne f _ _ H),
      recognized_in
      by first [ by vm_compute | rewrite H; vm_compute; auto 10 ].
    cbn [negb length]. lia. }
  destruct (decide (f_severity f = lit "Medium")) as [H|H3].
  { rewrite (has_severity_eq f _ H), !(has_severity_ne f _ _ H),
      recognized_in
      by first [ by vm_compute | rewrite H; vm_compute; auto 10 ].
    cbn [negb length]. lia. }
  destruct (decide (f_severity f = lit "Low")) as [H|H4].
  { rewrite (has_severity_eq f _ H), !(has_severity_ne f _ _ H),
      recognized_in
      by first [ by vm_compute | rewrite H; vm_compute; auto 10 ].
    cbn [negb length]. lia. }
  assert (recognized f = false) as ->.
  { apply bool_decide_eq_false_2. unfold severity_names. cbn [In].
    intuition congruence. }
  rewrite !(proj2 (bool_decide_eq_false _) : _ -> has_severity _ f = false)
    by done.
  cbn [negb length]. lia.
Qed.

(** C7.  A finding whose severity is none of Critical, High, Medium,
    Low is counted in "Total findings" but in none of the four numbers
    of the severity split, which add up to less than the total; the
    table holds its row and the issue details hold its subsection, at
    its place in the rendered order. *)
Theorem unrecognized_severity_total_only (findings : list finding)
        (project scope wcag_target auditor today : str) (f : finding) :
  In f findings ->
  ~ In (f_severity f) severity_names ->
  exists earlier later,
    sort_findings findings = earlier ++ f :: later
    /\ build_lines findings project scope wcag_target auditor today
       = Ok (report_lines
               (summary_lines project scope wcag_target auditor today
                  (length findings)
                  (length (with_severity (lit "Critical") findings))
                  (length (with_severity (lit "High") findings))
                  (length (with_severity (lit "Medium") findings))
                  (length (with_severity (lit "Low") findings)))
               (List.map row_text earlier ++ row_text f
                  :: List.map row_text later)
               (List.map subsection_lines earlier ++ subsection_lines f
                  :: List.map subsection_lines later))
    /\ (forall name,
           In name severity_names -> ~ In f (with_severity name findings))
    /\ (length (with_severity (lit "Critical") findings)
        + length (with_severity (lit "High") findings)
        + length (with_severity (lit "Medium") findings)
        + length (with_severity (lit "Low") findings)
        < length findings)%nat.
Proof.
  intros Hin Hsev.
  assert (In f (sort_findings findings)) as Hsorted.
  { eapply Permutation_in; [|exact Hin].
    symmetry. apply sorted_by_perm. }
  apply List.in_split in Hsorted as (earlier & later & Hsplit).
  exists earlier, later. split; [done|]. split; [|split].
  - rewrite build_lines_written, Hsplit.
    by rewrite !List.map_app.
  - intros name Hname [_ Hf]%List.filter_In.
    apply bool_decide_eq_true in Hf. congruence.
  - pose proof (bucket_counts findings) as Hsum.
    assert (In f (List.filter (fun f => negb (recognized f)) findings)) as Hf.
    { apply List.filter_In. split; [done|].
      unfold recognized. by rewrite bool_decide_eq_false_2. }
    unfold with_severity.
    destruct (List.filter (fun f => negb (recognized f)) findings);
      [done | cbn [length] in Hsum; lia].
Qed.

Lemma unrecognized_severity_total_only_witness :
  exists earlier later,
    sort_findings sample_findings
    = earlier ++ sample_finding "A11Y-004" "Minor" :: later
    /\ build_lines sample_findings (lit "Shop") (lit "All pages")
         (lit "WCAG 2.1 AA") (lit "QA") (lit "2024-05-01")
       = Ok (report_lines
               (summary_lines (lit "Shop") (lit "All pages")
                  (lit "WCAG 2.1 AA") (lit "QA") (lit "2024-05-01")
                  5 1 0 0 2)
               (List.map row_text earlier
                  ++ row_text (sample_finding "A11Y-004" "Minor")
                  :: List.map row_text later)
               (List.map subsection_lines earlier
                  ++ subsection_lines (sample_finding "A11Y-004" "Minor")
                  :: List.map subsection_lines later)).
Proof.
  destruct (unrecognized_severity_total_only sample_findings (lit "Shop")
              (lit "All pages") (lit "WCAG 2.1 AA") (lit "QA")
              (lit "2024-05-01") (sample_finding "A11Y-004" "Minor"))
    as (earlier & later & Hsplit & Hlines & _).
  - cbn. tauto.
  - vm_compute. intuition discriminate.
  - exists earlier, later. split; [exact Hsplit | exact Hlines].
Defined.

Lemma sort_findings_split (findings : list finding) :
  sort_findings findings
  = sort_findings (List.filter recognized findings)
      ++ List.filter (fun f => negb (recognized f)) findings.
Proof.
  induction findings as [|f findings IH]; [done|].
  unfold sort_findings, sorted_by in *.
  cbn [sorted List.fold_right List.filter].
  fold (sorted (key_le sort_key) findings). rewrite IH.
  destruct (recognized f) eqn:Hf; cbn [negb].
  - cbn [sorted List.fold_right]. apply insert_sorted_app_l.
    apply List.Forall_forall. intros x [_ Hx]%List.filter_In.
    apply negb_true_iff in Hx. apply sort_key_unrecognized in Hx.
    apply sort_key_recognized in Hf. lia.
  - rewrite insert_sorted_app_r.
    + f_equal. apply sort_key_unrecognized in Hf.
      destruct (List.filter (fun f => negb (recognized f)) findings)
        as [|x rest] eqn:Hrest; [done|].
      cbn [insert_sorted]. unfold key_le.
      assert (sort_key x = 99%nat) as ->.
      { assert (In x (List.filter (fun f => negb (recognized f)) findings))
          as Hx by (rewrite Hrest; by left).
        apply List.filter_In in Hx as [_ Hx]. apply negb_true_iff in Hx.
        by apply sort_key_unrecognized. }
      by rewrite Hf.
    + apply List.Forall_forall. intros x Hx.
      eapply Permutation_in in Hx;
        [|apply (sorted_by_perm sort_key)].
      apply List.filter_In in Hx as [_ Hx].
      apply sort_key_recognized in Hx.
      apply sort_key_unrecognized in Hf. lia.
Qed.

(** C10.  Findings with an unrecognised severity have sort key 99,
    above the keys 0 to 3 of the recognised ones, so the table and the
    issue details list every recognised finding first and then the
    unrecognised findings in their input order. *)
Theorem unrecognized_severities_last (findings : list finding)
        (project scope wcag_target auditor today : str) :
  let known := sort_findings (List.filter recognized findings) in
  let unknown := List.filter (fun f => negb (recognized f)) findings in
  sort_findings findings = known ++ unknown
  /\ Forall (fun f => recognized f = true /\ (sort_key f <= 3)%nat) known
  /\ Forall (fun f => recognized f = false /\ sort_key f = 99%nat) unknown
  /\ (exists summary,
         build_lines findings project scope wcag_target auditor today
         = Ok (report_lines summary
                 (List.map table_row (known ++ unknown))
                 (List.map detail_block (known ++ unknown)))).
Proof.
  intros known unknown. split; [apply sort_findings_split|].
  split; [|split].
  - apply List.Forall_forall. intros x Hx.
    eapply Permutation_in in Hx; [|apply (sorted_by_perm sort_key)].
    apply List.filter_In in Hx as [_ Hx].
    split; [done | by apply sort_key_recognized].
  - apply List.Forall_forall. intros x [_ Hx]%List.filter_In.
    apply negb_true_iff in Hx.
    split; [done | by apply sort_key_unrecognized].
  - subst known unknown. eexists. rewrite build_lines_layout.
    by rewrite <- sort_findings_split.
Qed.

End ReportClaims.

(** * issue_from_template.py *)

Section IssueTemplateClaims.
Import IssueTemplate.

(** C9.  With no matching file the first identifier ends in -001, and
    with files -001 to -007 the next one ends in -008.  The file whose
    number is read is the last one in the lexicographic order of the
    names, which is not always the one with the highest number: with
    files numbered 999 and 1000 the name with 999 sorts last and the
    identifier returned is 1000 again, not 1001. *)
Theorem next_issue_id_reads_last_name :
  (forall prefix : str, next_issue_id [] prefix = Ok (prefix ++ lit "-001"))
  /\ next_issue_id issues_001_to_007 (lit "A11Y") = Ok (lit "A11Y-008")
  /\ sorted str_le issues_999_and_1000
     = [ lit "A11Y-1000-focus-lost.md"; lit "A11Y-999-low-contrast.md" ]
  /\ next_issue_id issues_999_and_1000 (lit "A11Y") = Ok (lit "A11Y-1000").
Proof.
  split; [done|]. split; [by vm_compute|]. split; by vm_compute.
Qed.

End IssueTemplateClaims.

(** * severity_guard.py: further properties *)

Section SeverityGuardMore.
Import Re SeverityGuard.

Lemma space_star_intro {A} (ws s' : str) prev g (k : cont A) :
  Forall (fun c => is_space c = true) ws ->
  is_Some (k (last_char prev ws) s' g) ->
  is_Some (space_star prev (ws ++ s') g k).
Proof.
  intros Hws. revert prev. induction Hws as [|c ws Hc _ IH]; intros prev Hk.
  - cbn [app]. change (last_char prev []) with prev in Hk.
    destruct s' as [|c s']; [done|]. cbn [space_star].
    destruct (is_space c); [|done].
    by destruct (space_star (Some c) s' g k).
  - cbn [app space_star]. rewrite Hc. rewrite last_char_cons in Hk.
    destruct (IH _ Hk) as [a ->]. done.
Qed.

Lemma at_line_start_last_char (before : str) :
  at_line_start before ->
  last_char None before = None \/ last_char None before = Some 10.
Proof. unfold last_char. intros [->| ->]; [by left | by right]. Qed.

Lemma last_char_line_start (before : str) :
  last_char None before = None \/ last_char None before = Some 10 ->
  at_line_start before.
Proof.
  unfold last_char, at_line_start.
  destruct before as [|c before]; [by left|].
  rewrite last_cons. destruct (last before); intros [H|H]; try done;
    right; congruence.
Qed.

(** The shape of the text at a match of the declared-severity
    pattern. *)
Lemma match_here_severity_line_shape prev s m :
  match_here severity_line prev s = Some m ->
  exists ws declared ws' after,
    s = lit "- Severity:" ++ ws ++ declared ++ ws' ++ after
    /\ (prev = None \/ prev = Some 10)
    /\ Forall (fun c => is_space c = true) ws
    /\ Forall (fun c => is_space c = true) ws'
    /\ at_line_end after
    /\ In declared severity_words
    /\ group1 m = Some declared.
Proof.
  unfold match_here, severity_line. cbn [matches]. intros H.
  assert ((prev = None \/ prev = Some 10)
          /\ matches (word (lit "- Severity:")) prev s None
               (fun prev' s' g' =>
                  space_star prev' s' g'
                    (fun prev'' s'' g'' =>
                       matches (one_of severity_words) prev'' s'' g''
                         (fun p t _ =>
                            space_star p t
                              (Some (take (length s'' - length t) s''))
                              (fun _ t' g3 =>
                                 match t' with
                                 | [] => Some (MatchObj g3)
                                 | c :: _ =>
                                     if c =? 10 then Some (MatchObj g3)
                                     else None
                                 end)))) = Some m) as [Hprev H'].
  { destruct prev as [c|]; [|by split; [left|]].
    destruct (N.eqb_spec c 10) as [->|]; [by split; [right|] | done]. }
  clear H. apply matches_word_inv in H' as (s1 & -> & H).
  apply space_star_inv in H as (ws & s2 & -> & Hws & H).
  unfold one_of in H. apply matches_alts_inv in H as (r & Hin & H); [|done].
  apply List.in_map_iff in Hin as (declared & <- & Hin).
  apply matches_word_inv in H as (s3 & -> & H).
  apply space_star_inv in H as (ws' & s4 & -> & Hws' & H).
  exists ws, declared, ws', s4.
  assert (at_line_end s4
          /\ m = MatchObj
                   (Some (take (length (declared ++ ws' ++ s4)
                                - length (ws' ++ s4))
                            (declared ++ ws' ++ s4)))) as [Hend ->].
  { destruct s4 as [|c s4]; [split; [by left | congruence]|].
    destruct (N.eqb_spec c 10) as [->|]; [|done].
    split; [by right | congruence]. }
  repeat split; try done.
  cbn [group1]. f_equal.
  rewrite length_app, Nat.add_sub. apply take_app_length.
Qed.

Lemma match_here_severity_line_intro prev ws declared ws' after :
  prev = None \/ prev = Some 10 ->
  Forall (fun c => is_space c = true) ws ->
  Forall (fun c => is_space c = true) ws' ->
  at_line_end after ->
  In declared severity_words ->
  is_Some (match_here severity_line prev
             (lit "- Severity:" ++ ws ++ declared ++ ws' ++ after)).
Proof.
  intros Hprev Hws Hws' Hend Hin.
  unfold match_here, severity_line. cbn [matches].
  assert (is_Some
            (matches (word (lit "- Severity:")) prev
               (lit "- Severity:" ++ ws ++ declared ++ ws' ++ after) None
               (fun prev' s' g' =>
                  space_star prev' s' g'
                    (fun prev'' s'' g'' =>
                       matches (one_of severity_words) prev'' s'' g''
                         (fun p t _ =>
                            space_star p t
                              (Some (take (length s'' - length t) s''))
                              (fun _ t' g3 =>
                                 match t' with
                                 | [] => Some (MatchObj g3)
                                 | c :: _ =>
                                     if c =? 10 then Some (MatchObj g3)
                                     else None
                                 end)))))) as H.
  { rewrite matches_word. apply space_star_intro; [done|].
    apply matches_alts_intro with (r := word declared);
      [by apply List.in_map|].
    rewrite matches_word. apply space_star_intro; [done|].
    destruct Hend as [->|Hend]; [done|].
    destruct after as [|c after]; [done|]. injection Hend as ->. done. }
  destruct Hprev as [->| ->]; exact H.
Qed.

Lemma search_any_of_iff (phrases : list str) (content : str) :
  phrases <> [] ->
  is_Some (search (any_of phrases) content) <-> mentions phrases content.
Proof.
  intros Hne. split.
  - intros [m Hm]. by apply search_any_of_inv in Hm.
  - intros (phrase & Hin & Hc). by apply search_any_of_intro with phrase.
Qed.

Lemma search_any_of_none (phrases : list str) (content : str) :
  phrases <> [] ->
  search (any_of phrases) content = None <-> ~ mentions phrases content.
Proof.
  intros Hne. rewrite <- (search_any_of_iff _ _ Hne).
  destruct (search (any_of phrases) content); split; try done.
  intros H. destruct H. by eexists.
Qed.

(** X1.  The text has a parseable declared-severity line exactly when it
    holds a line of the form [- Severity: <name>]. *)
Theorem parse_declared_severity_some_iff (content : str) :
  is_Some (parse_declared_severity content)
  <-> exists declared, declares declared content.
Proof.
  unfold parse_declared_severity. split.
  - destruct (search severity_line content) as [m|] eqn:Hs;
      [|by intros []].
    apply search_from_inv in Hs as (before & s & -> & Hm).
    apply match_here_severity_line_shape in Hm
      as (ws & declared & ws' & after & -> & Hprev & Hws & Hws' & Hend
          & Hin & _).
    intros _. exists declared, before, ws, ws', after.
    repeat split; try done. by apply last_char_line_start.
  - intros (declared & before & ws & ws' & after & -> & Hstart & Hws & Hws'
            & Hend & Hin).
    destruct (search_from_intro severity_line None before
                (lit "- Severity:" ++ ws ++ declared ++ ws' ++ after))
      as [m Hm].
    { apply match_here_severity_line_intro; try done.
      by apply at_line_start_last_char. }
    unfold search. rewrite Hm.
    apply search_from_inv in Hm as (pre & s & _ & Hm).
    apply match_here_severity_line in Hm as (d & _ & ->). done.
Qed.

Lemma parse_declared_severity_some_iff_witness :
  is_Some (parse_declared_severity doc_medium_payment).
Proof.
  apply (proj2 (parse_declared_severity_some_iff doc_medium_payment)).
  exists (lit "Medium"), (lit "# Issue" ++ nl), (lit "   "), (lit "  "),
    (nl ++ lit "Payment form loses focus").
  split; [by vm_compute|]. split; [by right|].
  split; [repeat constructor|]. split; [repeat constructor|].
  split; [by right|]. cbn. tauto.
Defined.

(** X2.  The rule engine returns no floor exactly for the texts that hold
    none of the phrases of the three rules. *)
Theorem infer_none_iff (content : str) :
  infer_minimum_severity content = None
  <-> ~ mentions blocker_phrases content
      /\ ~ mentions critical_flow_phrases content
      /\ ~ mentions barrier_phrases content.
Proof.
  rewrite infer_minimum_severity_unfold.
  rewrite <- !search_any_of_none by done.
  fold blocker_pattern critical_flow_pattern barrier_pattern.
  destruct (search blocker_pattern content);
    destruct (search critical_flow_pattern content);
    destruct (search barrier_pattern content); split; try done;
    intros (? & ? & ?); done.
Qed.

Lemma infer_none_iff_witness :
  infer_minimum_severity doc_low_plain = None
  /\ ~ mentions barrier_phrases doc_low_plain.
Proof.
  assert (infer_minimum_severity doc_low_plain = None) as H by by vm_compute.
  split; [exact H|].
  apply (proj1 (infer_none_iff doc_low_plain) H).
Defined.

(** X3.  When the declared severity parses, [check_file] fails in three
    cases only: High is declared and a blocker phrase occurs; Medium is
    declared and a blocker or critical-flow phrase occurs; Low is
    declared and a phrase of any rule occurs.  A declaration of
    Critical never fails. *)
Theorem check_file_fails_iff (content declared : str) :
  parse_declared_severity content = Some declared ->
  (exists msg, check_file content = Ok (false, msg))
  <-> (declared = lit "High" /\ mentions blocker_phrases content)
      \/ (declared = lit "Medium"
          /\ (mentions blocker_phrases content
              \/ mentions critical_flow_phrases content))
      \/ (declared = lit "Low"
          /\ (mentions blocker_phrases content
              \/ mentions critical_flow_phrases content
              \/ mentions barrier_phrases content)).
Proof.
  intros Hd. rewrite (check_file_floor_verdict _ _ Hd).
  apply parse_declared_severity_known in Hd.
  rewrite infer_minimum_severity_unfold.
  assert (match search blocker_pattern content with
          | Some _ => mentions blocker_phrases content
          | None => ~ mentions blocker_phrases content
          end) as Hb.
  { pose proof (search_any_of_iff blocker_phrases content ltac:(done)) as H.
    fold blocker_pattern in H.
    destruct (search blocker_pattern content);
      [by apply H | intros M%H; by destruct M]. }
  assert (match search critical_flow_pattern content with
          | Some _ => mentions critical_flow_phrases content
          | None => ~ mentions critical_flow_phrases content
          end) as Hf.
  { pose proof (search_any_of_iff critical_flow_phrases content ltac:(done))
      as H.
    fold critical_flow_pattern in H.
    destruct (search critical_flow_pattern content);
      [by apply H | intros M%H; by destruct M]. }
  assert (match search barrier_pattern content with
          | Some _ => mentions barrier_phrases content
          | None => ~ mentions barrier_phrases content
          end) as Hm.
  { pose proof (search_any_of_iff barrier_phrases content ltac:(done)) as H.
    fold barrier_pattern in H.
    destruct (search barrier_pattern content);
      [by apply H | intros M%H; by destruct M]. }
  cbn [severity_words In] in Hd.
  destruct Hd as [<-|[<-|[<-|[<-|[]]]]];
    destruct (search blocker_pattern content);
    destruct (search critical_flow_pattern content);
    destruct (search barrier_pattern content);
    (split;
     [ intros [msg H]; vm_compute in H; try discriminate H;
       first [ left; split; [reflexivity | tauto]
             | right; left; split; [reflexivity | tauto]
             | right; right; split; [reflexivity | tauto] ]
     | intros Hcase;
       first [ by (eexists; vm_compute; reflexivity)
             | exfalso;
               destruct Hcase as [[E M]|[[E M]|[E M]]];
               first [ by vm_compute in E | tauto ] ] ]).
Qed.

Lemma check_file_fails_iff_witness :
  exists msg, check_file doc_medium_payment = Ok (false, msg).
Proof.
  apply (proj2 (check_file_fails_iff doc_medium_payment (lit "Medium")
                  ltac:(by vm_compute))).
  right. left. split; [done|]. right.
  exists (lit "payment"). split; [cbn; tauto|].
  exists (lit "# Issue" ++ nl ++ lit "- Severity:   Medium  " ++ nl),
    (lit "Payment"), (lit " form loses focus").
  split; [by vm_compute | repeat constructor].
Defined.

End SeverityGuardMore.

(** * a11y_report_scaffold.py: further properties *)

Section ReportMore.
Import ReportScaffold.

Lemma insert_sorted_head {A} (key : A -> nat) (x : A) (l : list A) :
  Forall (fun y => key x <= key y)%nat l ->
  insert_sorted (key_le key) x l = x :: l.
Proof.
  intros [|y l' Hy _]; [done|]. cbn [insert_sorted]. unfold key_le.
  by destruct (Nat.leb_spec (key x) (key y)); [|lia].
Qed.

Lemma sort_key_of_severity (f : finding) (name : str) (k : nat) :
  severity_order !! name = Some k ->
  f_severity f = name -> sort_key f = k.
Proof. intros Hk Hf. unfold sort_key. by rewrite Hf, Hk. Qed.

Lemma with_severity_key (name : str) (k : nat) (findings : list finding) :
  severity_order !! name = Some k ->
  Forall (fun f => sort_key f = k) (with_severity name findings).
Proof.
  intros Hk. apply List.Forall_forall. intros f [_ Hf]%List.filter_In.
  apply bool_decide_eq_true in Hf. by apply sort_key_of_severity with name.
Qed.

Lemma unrecognized_key (findings : list finding) :
  Forall (fun f => sort_key f = 99%nat) (unrecognized findings).
Proof.
  apply List.Forall_forall. intros f [_ Hf]%List.filter_In.
  apply negb_true_iff in Hf. by apply sort_key_unrecognized.
Qed.

Lemma Forall_key_bound (P : nat -> Prop) (k : nat) (l : list finding) :
  P k -> Forall (fun f => sort_key f = k) l -> Forall (fun f => P (sort_key f)) l.
Proof.
  intros HP H. eapply List.Forall_impl; [|exact H].
  cbn. by intros f ->.
Qed.

(** X4.  The order of the report: all Critical findings, then the High,
    Medium and Low ones, then those of an unrecognised severity, each
    group in input order. *)
Theorem sort_findings_groups (findings : list finding) :
  sort_findings findings
  = with_severity (lit "Critical") findings
      ++ with_severity (lit "High") findings
      ++ with_severity (lit "Medium") findings
      ++ with_severity (lit "Low") findings
      ++ unrecognized findings.
Proof.
  induction findings as [|f findings IH]; [done|].
  unfold sort_findings, sorted_by in *.
  cbn [sorted List.fold_right].
  fold (sorted (key_le sort_key) findings). rewrite IH. clear IH.
  pose proof (with_severity_key (lit "Critical") 0 findings eq_refl) as H0.
  pose proof (with_severity_key (lit "High") 1 findings eq_refl) as H1.
  pose proof (with_severity_key (lit "Medium") 2 findings eq_refl) as H2.
  pose proof (with_severity_key (lit "Low") 3 findings eq_refl) as H3.
  pose proof (unrecognized_key findings) as H4.
  unfold with_severity, unrecognized in *. cbn [List.filter].
  destruct (decide (f_severity f = lit "Critical")) as [H|N0].
  { rewrite (has_severity_eq f _ H), !(has_severity_ne f _ _ H),
      recognized_in
      by first [ by vm_compute | rewrite H; vm_compute; auto 10 ].
    cbn [negb app]. apply insert_sorted_head.
    rewrite (sort_key_of_severity f (lit "Critical") 0 eq_refl H).
    apply List.Forall_forall. intros; lia. }
  destruct (decide (f_severity f = lit "High")) as [H|N1].
  { rewrite (has_severity_eq f _ H), !(has_severity_ne f _ _ H),
      recognized_in
      by first [ by vm_compute | rewrite H; vm_compute; auto 10 ].
    cbn [negb app].
    rewrite insert_sorted_app_r
      by (rewrite (sort_key_of_severity f (lit "High") 1 eq_refl H);
          apply (Forall_key_bound (fun k => k < 1)%nat 0); [lia | done]).
    f_equal. apply insert_sorted_head.
    rewrite (sort_key_of_severity f (lit "High") 1 eq_refl H).
    rewrite !List.Forall_app. repeat split.
    - apply (Forall_key_bound (fun k => 1 <= k)%nat 1); [lia | done].
    - apply (Forall_key_bound (fun k => 1 <= k)%nat 2); [lia | done].
    - apply (Forall_key_bound (fun k => 1 <= k)%nat 3); [lia | done].
    - apply (Forall_key_bound (fun k => 1 <= k)%nat 99); [lia | done]. }
  destruct (decide (f_severity f = lit "Medium")) as [H|N2].
  { rewrite (has_severity_eq f _ H), !(has_severity_ne f _ _ H),
      recognized_in
      by first [ by vm_compute | rewrite H; vm_compute; auto 10 ].
    cbn [negb app].
    rewrite !(app_assoc (List.filter (has_severity (lit "Critical")) findings)).
    rewrite insert_sorted_app_r.
    2:{ rewrite (sort_key_of_severity f (lit "Medium") 2 eq_refl H).
        rewrite List.Forall_app. split.
        - apply (Forall_key_bound (fun k => k < 2)%nat 0); [lia | done].
        - apply (Forall_key_bound (fun k => k < 2)%nat 1); [lia | done]. }
    rewrite <- !app_assoc. do 2 f_equal. apply insert_sorted_head.
    rewrite (sort_key_of_severity f (lit "Medium") 2 eq_refl H).
    rewrite !List.Forall_app. repeat split.
    - apply (Forall_key_bound (fun k => 2 <= k)%nat 2); [lia | done].
    - apply (Forall_key_bound (fun k => 2 <= k)%nat 3); [lia | done].
    - apply (Forall_key_bound (fun k => 2 <= k)%nat 99); [lia | done]. }
  destruct (decide (f_severity f = lit "Low")) as [H|N3].
  { rewrite (has_severity_eq f _ H), !(has_severity_ne f _ _ H),
      recognized_in
      by first [ by vm_compute | rewrite H; vm_compute; auto 10 ].
    cbn [negb app].
    rewrite !(app_assoc (List.filter (has_severity (lit "Critical")) findings)).
    rewrite !(app_assoc (_ ++ List.filter (has_severity (lit "High")) findings)).
    rewrite insert_sorted_app_r.
    2:{ rewrite (sort_key_of_severity f (lit "Low") 3 eq_refl H).
        rewrite !List.Forall_app. repeat split.
        - apply (Forall_key_bound (fun k => k < 3)%nat 0); [lia | done].
        - apply (Forall_key_bound (fun k => k < 3)%nat 1); [lia | done].
        - apply (Forall_key_bound (fun k => k < 3)%nat 2); [lia | done]. }
    rewrite <- !app_assoc. do 3 f_equal. apply insert_sorted_head.
    rewrite (sort_key_of_severity f (lit "Low") 3 eq_refl H).
    rewrite !List.Forall_app. repeat split.
    - apply (Forall_key_bound (fun k => 3 <= k)%nat 3); [lia | done].
    - apply (Forall_key_bound (fun k => 3 <= k)%nat 99); [lia | done]. }
  assert (recognized f = false) as Hf.
  { apply bool_decide_eq_false_2. unfold severity_names. cbn [In].
    intuition congruence. }
  rewrite Hf.
  rewrite !(proj2 (bool_decide_eq_false _) : _ -> has_severity _ f = false)
    by done.
  cbn [negb].
  rewrite !(app_assoc (List.filter (has_severity (lit "Critical")) findings)).
  rewrite !(app_assoc (_ ++ List.filter (has_severity (lit "High")) findings)).
  rewrite !(app_assoc (_ ++ List.filter (has_severity (lit "Medium")) findings)).
  rewrite insert_sorted_app_r.
  2:{ rewrite (sort_key_unrecognized f Hf).
      rewrite !List.Forall_app. repeat split.
      - apply (Forall_key_bound (fun k => k < 99)%nat 0); [lia | done].
      - apply (Forall_key_bound (fun k => k < 99)%nat 1); [lia | done].
      - apply (Forall_key_bound (fun k => k < 99)%nat 2); [lia | done].
      - apply (Forall_key_bound (fun k => k < 99)%nat 3); [lia | done]. }
  rewrite <- !app_assoc. do 4 f_equal. apply insert_sorted_head.
  rewrite (sort_key_unrecognized f Hf).
  apply (Forall_key_bound (fun k => 99 <= k)%nat 99); [lia | done].
Qed.

End ReportMore.

Section ReportOrder.
Import ReportScaffold.

Lemma has_key_filter (k : nat) (l : list finding) :
  List.filter (has_key k) l = List.filter (fun a => sort_key a =? k)%nat l.
Proof. reflexivity. Qed.

(** X5.  Findings that come ordered by severity rank are rendered in the
    order they were given. *)
Theorem ordered_findings_keep_order (findings : list finding)
        (project scope wcag_target auditor today : str) :
  StronglySorted (fun a b => sort_key a <= sort_key b)%nat findings ->
  sort_findings findings = findings
  /\ exists summary,
      build_lines findings project scope wcag_target auditor today
      = Ok (report_lines summary (List.map table_row findings)
              (List.map detail_block findings)).
Proof.
  intros Hsorted.
  assert (sort_findings findings = findings) as Heq.
  { symmetry. by apply sorted_by_unique. }
  split; [done|]. eexists. rewrite build_lines_layout. by rewrite Heq.
Qed.

Lemma ordered_findings_keep_order_witness :
  sort_findings ordered_findings = ordered_findings.
Proof.
  apply (ordered_findings_keep_order ordered_findings [] [] [] [] []).
  unfold ordered_findings.
  repeat first [ apply SSorted_nil | apply SSorted_cons
               | apply List.Forall_nil | apply List.Forall_cons ];
    vm_compute; lia.
Defined.

(** X6.  The report depends on the input order only within each severity
    rank: two collections whose findings of each rank come in the same
    order render the same text. *)
Theorem build_markdown_rank_order_only (findings1 findings2 : list finding)
        (project scope wcag_target auditor today : str) :
  (forall k,
      List.filter (has_key k) findings1 = List.filter (has_key k) findings2) ->
  build_markdown findings1 project scope wcag_target auditor today
  = build_markdown findings2 project scope wcag_target auditor today.
Proof.
  intros Hsame.
  assert (sort_findings findings1 = sort_findings findings2) as Heq.
  { apply sorted_by_unique; [apply sorted_by_ordered|].
    intros k.
    etransitivity; [apply (sorted_by_stable sort_key) | apply Hsame]. }
  unfold build_markdown, build_lines. by rewrite Heq.
Qed.

Lemma build_markdown_rank_order_only_witness :
  build_markdown sample_findings (lit "Shop") [] [] [] (lit "2024-05-01")
  = build_markdown (sort_findings sample_findings) (lit "Shop") [] [] []
      (lit "2024-05-01").
Proof.
  apply build_markdown_rank_order_only.
  intros k. symmetry. apply sorted_by_stable.
Defined.

(** X7.  The four numbers of the severity split and the number of findings
    with an unrecognised severity add up to the total. *)
Theorem severity_split_adds_up (findings : list finding)
        (project scope wcag_target auditor today : str) :
  exists critical high medium low,
    build_lines findings project scope wcag_target auditor today
    = Ok (report_lines
            (summary_lines project scope wcag_target auditor today
               (length findings) critical high medium low)
            (List.map table_row (sort_findings findings))
            (List.map detail_block (sort_findings findings)))
    /\ (critical + high + medium + low + length (unrecognized findings)
        = length findings)%nat.
Proof.
  do 4 eexists. split; [apply build_lines_layout|]. apply bucket_counts.
Qed.

End ReportOrder.

Section LoadMore.
Import ReportScaffold.

Lemma missing_keys_nil (f : gmap (list N) json) :
  missing_keys f = []
  <-> forall key, In key REQUIRED_KEYS -> is_Some (f !! key).
Proof.
  split.
  - intros Hnil key Hkey. destruct (f !! key) eqn:Hf; [done|].
    assert (In key (missing_keys f)) as Hin by by apply missing_keys_spec.
    rewrite Hnil in Hin. destruct Hin.
  - intros Hall. destruct (missing_keys f) as [|key rest] eqn:Hm; [done|].
    assert (In key (missing_keys f)) as Hin by (rewrite Hm; by left).
    apply missing_keys_spec in Hin as [Hkey Hnone].
    apply Hall in Hkey. rewrite Hnone in Hkey. by destruct Hkey.
Qed.

Lemma validate_findings_ok (index : nat) (findings : list json) :
  validate_findings index findings = Ok tt
  <-> Forall well_formed_finding findings.
Proof.
  revert index. induction findings as [|j findings IH]; intros index.
  - split; [constructor | done].
  - cbn [validate_findings]. split.
    + destruct j as [| | | | |f]; try done.
      destruct (missing_keys f) eqn:Hm; [|done].
      destruct (f !! lit "reproduction") as [[| | | |[|step steps]|]|] eqn:Hr;
        try done.
      intros H%IH. constructor; [|done].
      exists f. split; [done|]. split; [by apply missing_keys_nil|].
      by exists step, steps.
    + intros H. apply Forall_cons_1 in H as [(f & -> & Hkeys & step & steps & Hr) H].
      apply missing_keys_nil in Hkeys. rewrite Hkeys, Hr. by apply IH.
Qed.

(** X8.  [load_findings] accepts exactly the payloads that are an object
    whose [findings] entry is an array of records having every required
    key and a non-empty [reproduction] array; it then returns that
    array. *)
Theorem load_findings_accepts_iff (payload : json) (findings : list json) :
  load_findings payload = Ok findings
  <-> exists p : gmap (list N) json,
      payload = JObj p
      /\ p !! lit "findings" = Some (JArr findings)
      /\ Forall well_formed_finding findings.
Proof.
  split.
  - destruct payload as [| | | | |p]; try done. cbn [load_findings].
    destruct (p !! lit "findings") as [[| | | |l|]|] eqn:Hp; try done.
    destruct (validate_findings 1 l) as [[]|e] eqn:Hv; [|done].
    intros [= ->]. exists p. split; [done|]. split; [done|].
    by apply (validate_findings_ok 1).
  - intros (p & -> & Hp & Hwf). cbn [load_findings]. rewrite Hp.
    apply (validate_findings_ok 1) in Hwf. by rewrite Hwf.
Qed.

Lemma complete_finding_well_formed :
  well_formed_finding (JObj complete_finding).
Proof.
  exists complete_finding. split; [done|]. split.
  - intros key Hkey. unfold REQUIRED_KEYS in Hkey. cbn [In] in Hkey.
    repeat (destruct Hkey as [<-|Hkey]; [vm_compute; by eexists|]).
    destruct Hkey.
  - by eexists _, _.
Qed.

Lemma load_findings_accepts_iff_witness :
  load_findings (payload_of [JObj complete_finding; JObj complete_finding])
  = Ok [JObj complete_finding; JObj complete_finding].
Proof.
  apply load_findings_accepts_iff. eexists. split; [reflexivity|].
  split; [reflexivity|].
  pose proof complete_finding_well_formed as Hwf.
  by repeat constructor.
Defined.

(** X9.  After findings that pass, an element that is not a record, or a
    record with every required key whose [reproduction] is not a
    non-empty array, is reported with its position, counted from 1. *)
Theorem load_findings_reports_position
        (p : gmap (list N) json) (valid : list json) (j : json)
        (rest : list json) :
  p !! lit "findings" = Some (JArr (valid ++ j :: rest)) ->
  Forall well_formed_finding valid ->
  ((forall f, j <> JObj f) ->
   load_findings (JObj p)
   = Raise (ValueError
              (lit "Finding #" ++ str_of_nat (S (length valid))
                 ++ lit " must be an object")))
  /\ (forall f,
         j = JObj f ->
         missing_keys f = [] ->
         (forall step steps,
             f !! lit "reproduction" <> Some (JArr (step :: steps))) ->
         load_findings (JObj p)
         = Raise (ValueError
                    (lit "Finding #" ++ str_of_nat (S (length valid))
                       ++ lit " needs a non-empty 'reproduction' array"))).
Proof.
  intros Hp Hvalid. apply (validate_findings_ok 1) in Hvalid.
  cbn [load_findings]. rewrite Hp, validate_findings_app, Hvalid.
  cbn [bind validate_findings Nat.add]. split.
  - intros Hj. destruct j as [| | | | |f]; try done. by destruct (Hj f).
  - intros f -> Hm Hr. rewrite Hm.
    destruct (f !! lit "reproduction") as [[| | | |[|step steps]|]|];
      try done.
    by destruct (Hr step steps).
Qed.

Lemma load_findings_reports_position_witness :
  load_findings payload_string_third
  = Raise (ValueError (lit "Finding #3 must be an object"))
  /\ load_findings payload_empty_steps_then_incomplete
     = Raise (ValueError
                (lit "Finding #1 needs a non-empty 'reproduction' array")).
Proof.
  pose proof complete_finding_well_formed as Hwf. split.
  - destruct (load_findings_reports_position
                {[ lit "findings" :=
                     JArr [JObj complete_finding; JObj complete_finding;
                           JStr (lit "oops")] ]}
                [JObj complete_finding; JObj complete_finding]
                (JStr (lit "oops")) []) as [H _].
    + by rewrite lookup_singleton_eq.
    + by repeat constructor.
    + etransitivity; [apply H; done | by vm_compute].
  - destruct (load_findings_reports_position
                {[ lit "findings" :=
                     JArr [JObj (<[ lit "reproduction" := JArr [] ]>
                                   complete_finding);
                           JObj ∅] ]}
                []
                (JObj (<[ lit "reproduction" := JArr [] ]> complete_finding))
                [JObj ∅]) as [_ H].
    + by rewrite lookup_singleton_eq.
    + constructor.
    + etransitivity; [|by vm_compute].
      apply (H (<[ lit "reproduction" := JArr [] ]> complete_finding));
        [done | by vm_compute |].
      intros step steps. by rewrite lookup_insert_eq.
Defined.

End LoadMore.

(** * issue_from_template.py: slugs and reproduction steps *)

Section StripFacts.
Import IssueTemplate.
Context (p : N -> bool).

Lemma lstrip_chars_head (s : str) :
  match lstrip_chars p s with
  | c :: _ => p c = false
  | [] => True
  end.
Proof.
  induction s as [|c s IH]; [done|]. cbn [lstrip_chars].
  by destruct (p c) eqn:Hc.
Qed.

Lemma lstrip_chars_suffix (s : str) :
  exists removed, s = removed ++ lstrip_chars p s.
Proof.
  induction s as [|c s [removed IH]]; [by exists []|].
  cbn [lstrip_chars]. destruct (p c).
  - exists (c :: removed). cbn. by rewrite <- IH.
  - by exists [].
Qed.

Lemma lstrip_chars_id (s : str) :
  match s with c :: _ => p c = false | [] => True end ->
  lstrip_chars p s = s.
Proof. destruct s as [|c s]; [done|]. cbn. by intros ->. Qed.

Lemma last_rev (s : str) : last (rev s) = head s.
Proof. destruct s as [|c s]; [done|]. cbn [rev]. apply last_snoc. Qed.

Lemma head_rev (s : str) : head (rev s) = last s.
Proof. by rewrite <- last_rev, rev_involutive. Qed.

(** What [strip] leaves: a middle part of the text that neither starts
    nor ends with a stripped character. *)
Lemma strip_chars_spec (s : str) :
  exists left right,
    s = left ++ strip_chars p s ++ right
    /\ match head (strip_chars p s) with
       | Some c => p c = false
       | None => True
       end
    /\ match last (strip_chars p s) with
       | Some c => p c = false
       | None => True
       end.
Proof.
  unfold strip_chars.
  destruct (lstrip_chars_suffix s) as [left Hleft].
  destruct (lstrip_chars_suffix (rev (lstrip_chars p s))) as [right Hright].
  pose proof (lstrip_chars_head s) as Hhead.
  pose proof (lstrip_chars_head (rev (lstrip_chars p s))) as Hlast.
  set (t := lstrip_chars p s) in *.
  set (u := lstrip_chars p (rev t)) in *.
  assert (t = rev u ++ rev right) as Ht.
  { rewrite <- (rev_involutive t), Hright, rev_app_distr. done. }
  exists left, (rev right). split; [by rewrite <- Ht|]. split.
  - destruct (rev u) as [|c r] eqn:Hr; [done|].
    rewrite Ht in Hhead. by cbn in *.
  - rewrite last_rev. by destruct u.
Qed.

Lemma strip_chars_id (s : str) :
  match head s with Some c => p c = false | None => True end ->
  match last s with Some c => p c = false | None => True end ->
  strip_chars p s = s.
Proof.
  intros Hhead Hlast. unfold strip_chars.
  rewrite (lstrip_chars_id s) by by destruct s.
  rewrite (lstrip_chars_id (rev s)); [apply rev_involutive|].
  rewrite <- head_rev in Hlast. by destruct (rev s).
Qed.

Lemma lstrip_chars_nil (s : str) :
  lstrip_chars p s = [] <-> Forall (fun c => p c = true) s.
Proof.
  induction s as [|c s IH]; [by split; [constructor|]|].
  cbn [lstrip_chars]. destruct (p c) eqn:Hc.
  - rewrite IH. split; [by constructor|].
    intros H. by apply Forall_cons_1 in H as [_ H].
  - split; [done|]. intros H. apply Forall_cons_1 in H as [H _]. congruence.
Qed.

(** Stripping leaves nothing exactly when every character is one that
    is stripped. *)
Lemma strip_chars_nil (s : str) :
  strip_chars p s = [] <-> Forall (fun c => p c = true) s.
Proof.
  split.
  - intros Hs. destruct (strip_chars_spec s) as (left & right & Heq & _).
    rewrite Hs in Heq. cbn [app] in Heq.
    unfold strip_chars in Hs.
    apply (f_equal (@rev N)) in Hs. rewrite rev_involutive in Hs.
    cbn [rev] in Hs. apply lstrip_chars_nil in Hs.
    apply List.Forall_rev in Hs. rewrite rev_involutive in Hs.
    pose proof (lstrip_chars_head s) as Hhead.
    destruct (lstrip_chars p s) as [|c t] eqn:Ht.
    + by apply lstrip_chars_nil.
    + apply Forall_cons_1 in Hs as [Hc _]. congruence.
  - intros Hs. unfold strip_chars.
    by rewrite (proj2 (lstrip_chars_nil s) Hs).
Qed.

Lemma strip_chars_idemp (s : str) :
  strip_chars p (strip_chars p s) = strip_chars p s.
Proof.
  destruct (strip_chars_spec s) as (_ & _ & _ & Hhead & Hlast).
  by apply strip_chars_id.
Qed.

End StripFacts.

Section SlugFacts.
Import IssueTemplate.

Lemma is_slug_char_not_hyphen (c : N) : is_slug_char c = true -> c <> 45.
Proof.
  unfold is_slug_char, Re.is_ascii_lower, is_digit.
  rewrite orb_true_iff, !andb_true_iff, !N.leb_le. lia.
Qed.

Lemma is_slug_char_not_space (c : N) :
  is_slug_char c = true -> Re.is_space c = false.
Proof.
  intros Hc. apply not_true_is_false. revert Hc.
  unfold is_slug_char, Re.is_ascii_lower, is_digit, Re.is_space.
  rewrite !orb_true_iff, !andb_true_iff, !N.leb_le, !N.eqb_eq. lia.
Qed.

Lemma lower_char_slug (c : N) :
  is_slug_char c = true \/ c = 45 -> lower_char c = [c].
Proof.
  intros Hc. unfold lower_char, Re.is_ascii_upper.
  assert ((65 <=? c) && (c <=? 90) = false) as ->.
  { apply not_true_is_false. revert Hc.
    unfold is_slug_char, Re.is_ascii_lower, is_digit.
    rewrite !orb_true_iff, !andb_true_iff, !N.leb_le. lia. }
  assert (c <> 304 /\ c <> 8490) as [H1 H2].
  { revert Hc. unfold is_slug_char, Re.is_ascii_lower, is_digit.
    rewrite !orb_true_iff, !andb_true_iff, !N.leb_le. lia. }
  apply N.eqb_neq in H1, H2. by rewrite H1, H2.
Qed.

Lemma sub_non_alnum_chars (in_run : bool) (value : str) :
  Forall (fun c => is_slug_char c = true \/ c = 45)
    (sub_non_alnum in_run value).
Proof.
  revert in_run. induction value as [|c value IH]; intros in_run;
    [constructor|].
  cbn [sub_non_alnum]. destruct (is_slug_char c) eqn:Hc.
  - constructor; [by left | apply IH].
  - destruct in_run; [apply IH|]. constructor; [by right | apply IH].
Qed.

Lemma sub_non_alnum_hyphens (in_run : bool) (value : str) :
  single_hyphens (sub_non_alnum in_run value)
  /\ (in_run = true -> head (sub_non_alnum in_run value) <> Some 45).
Proof.
  revert in_run. induction value as [|c value IH]; intros in_run; [done|].
  cbn [sub_non_alnum]. destruct (is_slug_char c) eqn:Hc.
  - destruct (IH false) as [Hs _]. split.
    + cbn [single_hyphens].
      destruct (sub_non_alnum false value) as [|b rest]; [done|].
      split; [|done]. intros [-> _]. by vm_compute in Hc.
    + intros _ [= ->]. by vm_compute in Hc.
  - destruct in_run.
    + apply IH.
    + destruct (IH true) as [Hs Hh]. split; [|done].
      cbn [single_hyphens].
      destruct (sub_non_alnum true value) as [|b rest]; [done|].
      split; [|done]. intros [_ ->]. by apply Hh.
Qed.

Lemma single_hyphens_app_r (l r : str) :
  single_hyphens (l ++ r) -> single_hyphens r.
Proof.
  induction l as [|a l IH]; [done|]. cbn [app]. intros H. apply IH.
  destruct (l ++ r); [done|]. by destruct H.
Qed.

Lemma single_hyphens_app_l (l r : str) :
  single_hyphens (l ++ r) -> single_hyphens l.
Proof.
  induction l as [|a l IH]; [done|]. cbn [app]. intros H.
  destruct l as [|b l]; [done|]. cbn [app single_hyphens] in *.
  destruct H as [H1 H2]. split; [done | by apply IH].
Qed.

Lemma issue_is_slug : is_slug (lit "issue").
Proof.
  unfold is_slug. change (lit "issue") with [105; 115; 115; 117; 101].
  split.
  { repeat (apply List.Forall_cons; [left; by vm_compute|]).
    apply List.Forall_nil. }
  split; [done|]. split; [done|]. split; [done|].
  cbn. repeat split; intros [H _]; discriminate H.
Qed.

Lemma slugify_is_slug (value : str) : is_slug (slugify value).
Proof.
  unfold slugify. cbv zeta.
  set (v := sub_non_alnum false (lower (str_strip value))).
  pose proof (sub_non_alnum_chars false (lower (str_strip value))) as Hchars.
  destruct (sub_non_alnum_hyphens false (lower (str_strip value)))
    as [Hhyph _].
  fold v in Hchars, Hhyph.
  destruct (strip_chars_spec (fun c => c =? 45) v)
    as (left & right & Hv & Hhead & Hlast).
  destruct (strip_chars (fun c => c =? 45) v) as [|c slug] eqn:Hstrip.
  - apply issue_is_slug.
  - rewrite Hv in Hchars, Hhyph.
    apply List.Forall_app in Hchars as [_ Hchars].
    apply List.Forall_app in Hchars as [Hchars _].
    apply single_hyphens_app_r, single_hyphens_app_l in Hhyph.
    unfold is_slug. repeat split; try done.
    + cbn in Hhead. intros [= ->]. done.
    + destruct (last (c :: slug)) as [d|]; [|done].
      intros [= ->]. done.
Qed.

Lemma sub_non_alnum_id (in_run : bool) (s : str) :
  Forall (fun c => is_slug_char c = true \/ c = 45) s ->
  single_hyphens s ->
  (in_run = true -> head s <> Some 45) ->
  sub_non_alnum in_run s = s.
Proof.
  intros Hchars. revert in_run.
  induction Hchars as [|c s Hc _ IH]; intros in_run Hhyph Hhead; [done|].
  cbn [sub_non_alnum]. destruct (is_slug_char c) eqn:Hslug.
  - f_equal. apply IH; [|done]. destruct s; [done|]. by destruct Hhyph.
  - destruct Hc as [Hc| ->]; [congruence|].
    destruct in_run; [by destruct Hhead|].
    f_equal. apply IH.
    + destruct s; [done|]. by destruct Hhyph.
    + intros _ Hs. destruct s as [|b s]; [done|].
      injection Hs as ->. destruct Hhyph as [Hne _]. by apply Hne.
Qed.

Lemma slugify_slug (s : str) : is_slug s -> slugify s = s.
Proof.
  intros (Hchars & Hne & Hhead & Hlast & Hhyph).
  assert (forall c, In c s -> c <> 45 -> Re.is_space c = false) as Hspace.
  { intros c Hin Hc.
    destruct (proj1 (List.Forall_forall _ _) Hchars c Hin); [|done].
    by apply is_slug_char_not_space. }
  assert (str_strip s = s) as Hstrip.
  { apply strip_chars_id.
    - destruct s as [|c s']; [done|]. cbn. apply Hspace; [by left|].
      intros ->. by apply Hhead.
    - destruct (last s) as [c|] eqn:Hl; [|done].
      apply Hspace; [|intros ->; by apply Hlast].
      apply list_elem_of_In, last_Some_elem_of. done. }
  assert (lower s = s) as Hlower.
  { unfold lower. clear -Hchars.
    induction Hchars as [|c s' Hc _ IH]; [done|].
    cbn [List.flat_map]. by rewrite (lower_char_slug c Hc), IH. }
  unfold slugify. cbv zeta.
  rewrite Hstrip, Hlower, (sub_non_alnum_id false s Hchars Hhyph) by done.
  rewrite strip_chars_id.
  - by destruct s.
  - destruct (head s) as [c|] eqn:Hh; [|done].
    apply N.eqb_neq. intros ->. by apply Hhead.
  - destruct (last s) as [c|] eqn:Hl; [|done].
    apply N.eqb_neq. intros ->. by apply Hlast.
Qed.

(** X10.  [slugify] always returns a well-formed slug: made of a-z,
    0-9 and hyphens, not empty, with no hyphen at either end and no two
    hyphens in a row; so it holds no slash, no dot and no whitespace. *)
Theorem slugify_well_formed (value : str) :
  is_slug (slugify value)
  /\ ~ contains (lit "--") (slugify value)
  /\ Forall (fun c => c <> 47 /\ c <> 46 /\ Re.is_space c = false)
       (slugify value).
Proof.
  pose proof (slugify_is_slug value) as Hslug.
  split; [done|]. destruct Hslug as (Hchars & _ & _ & _ & Hhyph). split.
  - intros (before & after & Heq). rewrite Heq in Hhyph.
    apply single_hyphens_app_r in Hhyph.
    change (lit "--" ++ after) with (45 :: 45 :: after) in Hhyph.
    destruct Hhyph as [Hne _]. by apply Hne.
  - eapply List.Forall_impl; [|exact Hchars]. cbn.
    intros c [Hc| ->]; [|by vm_compute].
    pose proof (is_slug_char_not_space c Hc) as Hspace.
    repeat split; try done; intros ->; by vm_compute in Hc.
Qed.

(** X11.  [slugify] leaves a well-formed slug as it is, so slugifying twice
    is the same as slugifying once. *)
Theorem slugify_idempotent :
  (forall s, is_slug s -> slugify s = s)
  /\ (forall value, slugify (slugify value) = slugify value).
Proof.
  split; [apply slugify_slug|].
  intros value. apply slugify_slug, slugify_is_slug.
Qed.

Lemma slugify_idempotent_witness :
  slugify (lit "sign-in") = lit "sign-in".
Proof.
  apply (proj1 slugify_idempotent).
  unfold is_slug. change (lit "sign-in") with [115; 105; 103; 110; 45; 105; 110].
  split.
  { repeat (apply List.Forall_cons;
            [first [left; by vm_compute | by right]|]).
    apply List.Forall_nil. }
  split; [done|]. split; [done|]. split; [done|].
  cbn. repeat split; intros [H1 H2];
    first [discriminate H1 | discriminate H2].
Defined.

Lemma split_no_sep (sep : N) (s : str) :
  Forall (fun field => ~ In sep field) (split sep s).
Proof.
  induction s as [|c s IH].
  { constructor; [by intros [] | constructor]. }
  cbn [split]. destruct (N.eqb_spec c sep) as [->|Hc].
  - constructor; [by intros [] | done].
  - destruct (split sep s) as [|field fields].
    { constructor; [|constructor]. by intros [<-|[]]. }
    apply Forall_cons_1 in IH as [Hf Hfs]. constructor; [|done].
    intros [<-|Hin]; [done | by apply Hf].
Qed.

Lemma strip_chars_In (p : N -> bool) (c : N) (s : str) :
  In c (strip_chars p s) -> In c s.
Proof.
  destruct (strip_chars_spec p s) as (left & right & Hs & _).
  intros Hin. rewrite Hs. apply List.in_or_app. right.
  apply List.in_or_app. by left.
Qed.

(** Every character of a text other than the separator lies in one of
    its fields, and the fields hold characters of the text only. *)
Lemma split_covers (sep c : N) (s : str) :
  In c s -> c <> sep -> exists field, In field (split sep s) /\ In c field.
Proof.
  intros Hin Hc. induction s as [|a s IH]; [done|].
  cbn [split]. destruct (N.eqb_spec a sep) as [->|Ha].
  - destruct Hin as [->|Hin]; [done|].
    destruct (IH Hin) as (field & Hfield & Hcf).
    exists field. split; [by right | done].
  - destruct (split sep s) as [|field fields] eqn:Hsplit.
    { exists [a]. split; [by left|].
      destruct Hin as [->|Hin]; [by left|].
      by destruct (IH Hin) as (? & [] & _). }
    destruct Hin as [->|Hin].
    + exists (c :: field). split; by left.
    + destruct (IH Hin) as (field' & [<-|Hfield] & Hcf).
      * exists (a :: field). split; [by left | by right].
      * exists field'. split; [by right | done].
Qed.

Lemma split_fields (sep c : N) (s field : str) :
  In field (split sep s) -> In c field -> In c s.
Proof.
  revert field. induction s as [|a s IH]; intros field.
  { intros [<-|[]] []. }
  cbn [split]. destruct (N.eqb_spec a sep) as [->|Ha].
  - intros [<-|Hfield]; [by intros []|].
    intros Hc. right. by apply (IH field).
  - destruct (split sep s) as [|field' fields] eqn:Hsplit.
    { intros [<-|[]] [->|[]]. by left. }
    intros [<-|Hfield].
    + intros [->|Hc]; [by left|]. right. apply (IH field'); [by left | done].
    + intros Hc. right. apply (IH field); [by right | done].
Qed.

Lemma blank_field (field : str) :
  bool_decide (str_strip field = []) = List.forallb Re.is_space field.
Proof.
  destruct (List.forallb Re.is_space field) eqn:Hall.
  - apply bool_decide_eq_true_2, strip_chars_nil.
    apply List.Forall_forall. by apply List.forallb_forall.
  - apply bool_decide_eq_false_2. intros Hs%strip_chars_nil.
    assert (List.forallb Re.is_space field = true); [|congruence].
    apply List.forallb_forall. by apply List.Forall_forall.
Qed.

Lemma repro_steps_written (repro : str) :
  repro_steps repro
  = match written_steps repro with
    | [] => [placeholder_step]
    | steps => steps
    end.
Proof.
  unfold repro_steps, written_steps.
  by rewrite (List.filter_ext _ (fun field => negb (List.forallb Re.is_space field))
                (fun field => f_equal negb (blank_field field))).
Qed.

(** X12.  The reproduction steps are never empty as a list, and each step is
    a non-empty text without surrounding whitespace and without the
    separator [|].  When the text holds nothing but whitespace and
    separators, the steps are the one placeholder; otherwise they are
    the steps written in the text, of which there is at least one. *)
Theorem repro_steps_clean (repro : str) :
  repro_steps repro <> []
  /\ Forall (fun step =>
               step <> [] /\ str_strip step = step /\ ~ In 124 step)
       (repro_steps repro)
  /\ (Forall (fun c => blank_or_bar c = true) repro ->
      repro_steps repro = [placeholder_step])
  /\ (Exists (fun c => blank_or_bar c = false) repro ->
      written_steps repro <> []
      /\ repro_steps repro = written_steps repro).
Proof.
  split; [|split; [|split]].
  - unfold repro_steps.
    by destruct (List.map str_strip
                   (List.filter
                      (fun step => negb (bool_decide (str_strip step = [])))
                      (split 124 repro))).
  - unfold repro_steps.
    pose proof (split_no_sep 124 repro) as Hsep.
    destruct (List.map str_strip
                (List.filter
                   (fun step => negb (bool_decide (str_strip step = [])))
                   (split 124 repro))) as [|step steps] eqn:Hsteps.
    + constructor; [|constructor].
      split; [done|]. split; [by vm_compute|].
      intros Hin. vm_compute in Hin.
      repeat (destruct Hin as [Hin|Hin]; [discriminate Hin|]).
      destruct Hin.
    + rewrite <- Hsteps. clear Hsteps.
      apply List.Forall_forall. intros x Hx.
      apply List.in_map_iff in Hx as (field & <- & Hfield).
      apply List.filter_In in Hfield as [Hfield Hne].
      apply negb_true_iff, bool_decide_eq_false in Hne.
      split; [done|]. split; [apply strip_chars_idemp|].
      intros Hin%strip_chars_In.
      by apply (proj1 (List.Forall_forall _ _) Hsep field).
  - intros Hblank. rewrite repro_steps_written.
    assert (written_steps repro = []) as ->; [|done].
    unfold written_steps.
    destruct (List.filter (fun field => negb (List.forallb Re.is_space field))
                (split 124 repro)) as [|field fields] eqn:Hfields; [done|].
    assert (In field (List.filter
                        (fun field => negb (List.forallb Re.is_space field))
                        (split 124 repro))) as Hin
      by (rewrite Hfields; by left).
    apply List.filter_In in Hin as [Hin Hfield].
    apply negb_true_iff in Hfield.
    assert (List.forallb Re.is_space field = true) as Hall; [|congruence].
    apply List.forallb_forall. intros c Hc.
    pose proof (split_fields 124 c repro field Hin Hc) as Hrepro.
    apply (proj1 (List.Forall_forall _ _) Hblank) in Hrepro.
    unfold blank_or_bar in Hrepro.
    apply orb_true_iff in Hrepro as [Hspace|Hbar%N.eqb_eq]; [done|].
    subst c.
    by destruct (proj1 (List.Forall_forall _ _) (split_no_sep 124 repro)
                   field Hin).
  - intros (c & Hc & Hblank)%List.Exists_exists.
    unfold blank_or_bar in Hblank.
    apply orb_false_iff in Hblank as [Hspace Hbar%N.eqb_neq].
    destruct (split_covers 124 c repro Hc Hbar) as (field & Hfield & Hcf).
    assert (In (str_strip field) (written_steps repro)) as Hin.
    { unfold written_steps. apply List.in_map, List.filter_In.
      split; [done|]. apply negb_true_iff, not_true_is_false.
      intros Hall. apply (proj1 (List.forallb_forall _ _) Hall) in Hcf.
      congruence. }
    rewrite repro_steps_written.
    destruct (written_steps repro); [done | by split].
Qed.

Lemma repro_steps_clean_witness :
  repro_steps (lit " | ") = [lit "Reproduction steps not provided."]
  /\ repro_steps (lit "Open the page | | Tab to the link ")
     = [lit "Open the page"; lit "Tab to the link"].
Proof.
  split.
  - apply (repro_steps_clean (lit " | ")).
    by repeat constructor.
  - etransitivity.
    + apply (repro_steps_clean (lit "Open the page | | Tab to the link ")).
      apply List.Exists_cons_hd. reflexivity.
    + by vm_compute.
Defined.

End SlugFacts.

(** * issue_from_template.py: numbers in identifiers *)

Section NumberFacts.
Import IssueTemplate.

Lemma lstrip_lstrip_chars (s : str) : lstrip s = lstrip_chars int_space s.
Proof.
  induction s as [|c s IH]; [done|]. cbn [lstrip lstrip_chars].
  by rewrite IH.
Qed.

Lemma strip_strip_chars (s : str) : strip s = strip_chars int_space s.
Proof. unfold strip, strip_chars. by rewrite !lstrip_lstrip_chars. Qed.

Lemma is_digit_not_int_space (c : N) :
  is_digit c = true -> int_space c = false.
Proof.
  intros Hc. apply not_true_is_false. revert Hc.
  unfold is_digit, int_space, Re.is_space.
  rewrite !orb_true_iff, !andb_true_iff, !N.leb_le, !N.ltb_lt, !N.eqb_eq.
  lia.
Qed.

Lemma is_digit_not_sign (c : N) : is_digit c = true -> c <> 43 /\ c <> 45.
Proof.
  unfold is_digit. rewrite andb_true_iff, !N.leb_le. lia.
Qed.

(** An ASCII digit is read with its value. *)
Lemma to_decimal_digit (c : N) :
  is_digit c = true -> to_decimal c = Some (c - 48).
Proof.
  intros Hc. unfold to_decimal, decimal_ranges. cbn [List.find fst snd].
  unfold is_digit in Hc. rewrite Hc. cbn [fmap option_fmap option_map].
  f_equal. apply N.mod_small.
  apply andb_true_iff in Hc as [_ Hc%N.leb_le]. lia.
Qed.

(** [int] by cases on the first character left after stripping. *)
Lemma int_unfold (text : str) :
  int text =
  match strip text with
  | [] => None
  | c :: digits =>
      if c =? 43 then digits_value 0 false digits
      else if c =? 45 then Z.opp <$> digits_value 0 false digits
      else digits_value 0 false (c :: digits)
  end.
Proof.
  unfold int. destruct (strip text) as [|c digits]; [done|].
  destruct c as [|q]; [done|].
  do 7 (try (destruct q as [q|q|]; try reflexivity)).
Qed.

Lemma strip_digits (s : str) :
  Forall (fun c => is_digit c = true) s -> strip s = s.
Proof.
  intros Hs. rewrite strip_strip_chars. apply strip_chars_id.
  - destruct Hs as [|c s Hc _]; [done|]. by apply is_digit_not_int_space.
  - destruct (last s) as [c|] eqn:Hl; [|done].
    apply is_digit_not_int_space.
    apply (proj1 (List.Forall_forall _ _) Hs).
    by apply list_elem_of_In, last_Some_elem_of.
Qed.

Lemma int_digits (s : str) :
  Forall (fun c => is_digit c = true) s ->
  int s = digits_value 0 false s.
Proof.
  intros Hs. rewrite int_unfold, (strip_digits s Hs).
  destruct Hs as [|c s Hc _]; [done|].
  destruct (is_digit_not_sign c Hc) as [H1 H2].
  apply N.eqb_neq in H1, H2. by rewrite H1, H2.
Qed.

Lemma lit_uint_digits (d : Decimal.uint) :
  Forall (fun c => is_digit c = true)
    (lit (DecimalString.NilEmpty.string_of_uint d)).
Proof.
  induction d; [constructor|..]; by constructor.
Qed.

Lemma digits_value_uint (d : Decimal.uint) (acc : nat) (after_digit : bool) :
  after_digit = true \/ d <> Decimal.Nil ->
  digits_value (Z.of_nat acc) after_digit
    (lit (DecimalString.NilEmpty.string_of_uint d))
  = Some (Z.of_nat (Nat.of_uint_acc d acc)).
Proof.
  revert acc after_digit.
  induction d as [|d IH|d IH|d IH|d IH|d IH|d IH|d IH|d IH|d IH|d IH];
    intros acc after_digit Hok.
  - destruct Hok as [->|]; done.
  - change (digits_value (10 * Z.of_nat acc + 0) true
              (lit (DecimalString.NilEmpty.string_of_uint d)) = 
            Some (Z.of_nat (Nat.of_uint_acc d (Nat.tail_mul 10 acc)))).
    rewrite <- (IH _ true) by by left. f_equal. rewrite Nat.tail_mul_spec. lia.
  - change (digits_value (10 * Z.of_nat acc + 1) true
              (lit (DecimalString.NilEmpty.string_of_uint d)) = 
            Some (Z.of_nat (Nat.of_uint_acc d (1 + Nat.tail_mul 10 acc)))).
    rewrite <- (IH _ true) by by left. f_equal. rewrite Nat.tail_mul_spec. lia.
  - change (digits_value (10 * Z.of_nat acc + 2) true
              (lit (DecimalString.NilEmpty.string_of_uint d)) = 
            Some (Z.of_nat (Nat.of_uint_acc d (2 + Nat.tail_mul 10 acc)))).
    rewrite <- (IH _ true) by by left. f_equal. rewrite Nat.tail_mul_spec. lia.
  - change (digits_value (10 * Z.of_nat acc + 3) true
              (lit (DecimalString.NilEmpty.string_of_uint d)) = 
            Some (Z.of_nat (Nat.of_uint_acc d (3 + Nat.tail_mul 10 acc)))).
    rewrite <- (IH _ true) by by left. f_equal. rewrite Nat.tail_mul_spec. lia.
  - change (digits_value (10 * Z.of_nat acc + 4) true
              (lit (DecimalString.NilEmpty.string_of_uint d)) = 
            Some (Z.of_nat (Nat.of_uint_acc d (4 + Nat.tail_mul 10 acc)))).
    rewrite <- (IH _ true) by by left. f_equal. rewrite Nat.tail_mul_spec. lia.
  - change (digits_value (10 * Z.of_nat acc + 5) true
              (lit (DecimalString.NilEmpty.string_of_uint d)) = 
            Some (Z.of_nat (Nat.of_uint_acc d (5 + Nat.tail_mul 10 acc)))).
    rewrite <- (IH _ true) by by left. f_equal. rewrite Nat.tail_mul_spec. lia.
  - change (digits_value (10 * Z.of_nat acc + 6) true
              (lit (DecimalString.NilEmpty.string_of_uint d)) = 
            Some (Z.of_nat (Nat.of_uint_acc d (6 + Nat.tail_mul 10 acc)))).
    rewrite <- (IH _ true) by by left. f_equal. rewrite Nat.tail_mul_spec. lia.
  - change (digits_value (10 * Z.of_nat acc + 7) true
              (lit (DecimalString.NilEmpty.string_of_uint d)) = 
            Some (Z.of_nat (Nat.of_uint_acc d (7 + Nat.tail_mul 10 acc)))).
    rewrite <- (IH _ true) by by left. f_equal. rewrite Nat.tail_mul_spec. lia.
  - change (digits_value (10 * Z.of_nat acc + 8) true
              (lit (DecimalString.NilEmpty.string_of_uint d)) = 
            Some (Z.of_nat (Nat.of_uint_acc d (8 + Nat.tail_mul 10 acc)))).
    rewrite <- (IH _ true) by by left. f_equal. rewrite Nat.tail_mul_spec. lia.
  - change (digits_value (10 * Z.of_nat acc + 9) true
              (lit (DecimalString.NilEmpty.string_of_uint d)) = 
            Some (Z.of_nat (Nat.of_uint_acc d (9 + Nat.tail_mul 10 acc)))).
    rewrite <- (IH _ true) by by left. f_equal. rewrite Nat.tail_mul_spec. lia.
Qed.

Lemma digits_value_zeros (k : nat) (after_digit : bool) (s : str) :
  digits_value 0 after_digit (replicate k 48 ++ s)
  = digits_value 0 (after_digit || (0 <? k)%nat) s.
Proof.
  revert after_digit. induction k as [|k IH]; intros after_digit.
  - by rewrite orb_false_r.
  - cbn [replicate app]. change (digits_value 0 after_digit (48 :: ?r))
      with (digits_value 0 true r).
    rewrite IH. by rewrite orb_true_r.
Qed.

Lemma format_03d_digits (number : Z) :
  (0 <= number)%Z ->
  Forall (fun c => is_digit c = true) (format_03d number)
  /\ (3 <= length (format_03d number))%nat.
Proof.
  intros Hn. unfold format_03d.
  destruct (Z.ltb_spec number 0); [lia|].
  unfold zero_pad, str_of_nat. split.
  - apply List.Forall_app. split; [|apply lit_uint_digits].
    apply List.Forall_forall. intros c Hc%list_elem_of_In.
    by apply elem_of_replicate in Hc as [-> _].
  - rewrite length_app, length_replicate. lia.
Qed.

Lemma int_format_03d (number : Z) :
  (0 <= number)%Z -> int (format_03d number) = Some number.
Proof.
  intros Hn. rewrite int_digits by by apply format_03d_digits.
  unfold format_03d. destruct (Z.ltb_spec number 0); [lia|].
  unfold zero_pad, str_of_nat. rewrite digits_value_zeros.
  change 0%Z with (Z.of_nat 0). rewrite digits_value_uint.
  - fold (Nat.of_uint (Nat.to_uint (Z.to_nat number))).
    rewrite DecimalNat.Unsigned.of_to. f_equal. lia.
  - destruct (Nat.to_uint (Z.to_nat number)); [by left | by right..].
Qed.

(** X13.  The number printed in an identifier is read back by [int]: for
    every number from 0 on, [f"{number:03d}"] consists of at least
    three digits and [int] of it is the number. *)
Theorem format_then_int (number : Z) :
  (0 <= number)%Z ->
  int (format_03d number) = Some number
  /\ Forall (fun c => is_digit c = true) (format_03d number)
  /\ (3 <= length (format_03d number))%nat.
Proof.
  intros Hn. split; [by apply int_format_03d | by apply format_03d_digits].
Qed.

Lemma format_then_int_witness :
  int (format_03d 1000) = Some 1000%Z
  /\ Forall (fun c => is_digit c = true) (format_03d 1000)
  /\ (3 <= length (format_03d 1000))%nat.
Proof. apply format_then_int. lia. Defined.

End NumberFacts.

(** * issue_from_template.py: allocation of identifiers *)

Section OrderFacts.
Import IssueTemplate.

Lemma str_le_refl (x : str) : str_le x x = true.
Proof.
  induction x as [|a x IH]; [done|]. cbn [str_le].
  by rewrite N.ltb_irrefl.
Qed.

Lemma str_le_total (x y : str) : str_le x y = true \/ str_le y x = true.
Proof.
  revert y. induction x as [|a x IH]; intros [|b y]; cbn [str_le];
    [by left | by left | by right |].
  destruct (N.ltb_spec a b), (N.ltb_spec b a); try (by left); try (by right).
  apply IH.
Qed.

Lemma str_le_trans (x y z : str) :
  str_le x y = true -> str_le y z = true -> str_le x z = true.
Proof.
  revert y z. induction x as [|a x IH]; intros [|b y] [|c z];
    cbn [str_le]; try done.
  destruct (N.ltb_spec a b), (N.ltb_spec b a), (N.ltb_spec b c),
    (N.ltb_spec c b), (N.ltb_spec a c), (N.ltb_spec c a);
    try done; try lia.
  apply IH.
Qed.

Lemma str_le_antisym (x y : str) :
  str_le x y = true -> str_le y x = true -> x = y.
Proof.
  revert y. induction x as [|a x IH]; intros [|b y]; cbn [str_le];
    try done.
  destruct (N.ltb_spec a b), (N.ltb_spec b a); try done; try lia.
  intros Hxy Hyx. f_equal; [lia | by apply IH].
Qed.

Lemma str_le_app (p x y : str) : str_le (p ++ x) (p ++ y) = str_le x y.
Proof.
  induction p as [|a p IH]; [done|]. cbn [app str_le].
  by rewrite N.ltb_irrefl.
Qed.

Lemma insert_sorted_perm_le {A} (le : A -> A -> bool) (x : A) (l : list A) :
  Permutation (insert_sorted le x l) (x :: l).
Proof.
  induction l as [|y l IH]; [done|].
  cbn [insert_sorted]. destruct (le x y); [done|].
  rewrite IH. apply perm_swap.
Qed.

Lemma sorted_perm_le {A} (le : A -> A -> bool) (l : list A) :
  Permutation (sorted le l) l.
Proof.
  induction l as [|x l IH]; [done|].
  cbn [sorted List.fold_right]. fold (sorted le l).
  rewrite insert_sorted_perm_le. by constructor.
Qed.

Lemma insert_sorted_ordered_le {A} (le : A -> A -> bool) (x : A) (l : list A) :
  (forall a b, le a b = true \/ le b a = true) ->
  (forall a b c, le a b = true -> le b c = true -> le a c = true) ->
  StronglySorted (fun a b => le a b = true) l ->
  StronglySorted (fun a b => le a b = true) (insert_sorted le x l).
Proof.
  intros Htotal Htrans. induction 1 as [|y l Hl IH Hy]; [repeat constructor|].
  cbn [insert_sorted]. destruct (le x y) eqn:Hxy.
  - constructor; [by constructor|]. constructor; [done|].
    eapply List.Forall_impl; [|exact Hy]. cbn. intros a Ha.
    by apply Htrans with y.
  - constructor; [done|].
    eapply Permutation_Forall; [symmetry; apply insert_sorted_perm_le|].
    constructor; [|done]. destruct (Htotal x y); congruence.
Qed.

Lemma sorted_ordered_le {A} (le : A -> A -> bool) (l : list A) :
  (forall a b, le a b = true \/ le b a = true) ->
  (forall a b c, le a b = true -> le b c = true -> le a c = true) ->
  StronglySorted (fun a b => le a b = true) (sorted le l).
Proof.
  intros Htotal Htrans. induction l as [|x l IH]; [constructor|].
  cbn [sorted List.fold_right]. by apply insert_sorted_ordered_le.
Qed.

Lemma StronglySorted_last {A} (R : A -> A -> Prop) (l : list A) (d : A) :
  (forall a, R a a) ->
  StronglySorted R l ->
  l <> [] ->
  In (List.last l d) l /\ forall x, In x l -> R x (List.last l d).
Proof.
  intros Hrefl. induction 1 as [|a l Hl IH Ha]; [done|]. intros _.
  destruct l as [|b l].
  - cbn. split; [by left|]. intros x [<-|[]]. apply Hrefl.
  - destruct IH as [Hin Hmax]; [done|].
    change (List.last (a :: b :: l) d) with (List.last (b :: l) d).
    split; [by right|]. intros x [<-|Hx]; [|by apply Hmax].
    by apply (proj1 (List.Forall_forall _ _) Ha).
Qed.

(** The name that [next_issue_id] reads is the greatest one in the
    lexicographic order. *)
Lemma last_sorted_names (matched : list str) :
  matched <> [] ->
  In (List.last (sorted str_le matched) []) matched
  /\ forall other,
      In other matched ->
      str_le other (List.last (sorted str_le matched) []) = true.
Proof.
  intros Hne.
  pose proof (sorted_perm_le str_le matched) as Hperm.
  destruct (StronglySorted_last (fun a b => str_le a b = true)
              (sorted str_le matched) [] str_le_refl) as [Hin Hmax].
  - apply sorted_ordered_le; [apply str_le_total | apply str_le_trans].
  - intros Hnil. rewrite Hnil in Hperm.
    apply Permutation_nil in Hperm. done.
  - split.
    + by apply (Permutation_in _ Hperm).
    + intros other Hother. apply Hmax.
      by apply (Permutation_in _ (Permutation_sym Hperm)).
Qed.

Lemma last_sorted_greatest (matched : list str) (name : str) :
  In name matched ->
  (forall other, In other matched -> str_le other name = true) ->
  List.last (sorted str_le matched) [] = name.
Proof.
  intros Hin Hmax.
  destruct (last_sorted_names matched) as [Hlast Hbound].
  { intros ->. destruct Hin. }
  apply str_le_antisym; [by apply Hmax | by apply Hbound].
Qed.

End OrderFacts.

Section AllocationFacts.
Import IssueTemplate.

Lemma rfind_app (c : N) (a b : str) :
  rfind c (a ++ b)
  = match rfind c b with
    | Some i => Some (length a + i)%nat
    | None => rfind c a
    end.
Proof.
  induction a as [|x a IH]; [cbn [app]; by destruct (rfind c b)|].
  cbn [app rfind length]. rewrite IH. by destruct (rfind c b).
Qed.

Lemma stem_md (s : str) : s <> [] -> stem (s ++ lit ".md") = s.
Proof.
  intros Hs. unfold stem. rewrite rfind_app.
  change (rfind 46 (lit ".md")) with (Some 0%nat). cbv beta iota.
  rewrite Nat.add_0_r, length_app.
  change (length (lit ".md")) with 3%nat.
  assert (0 < length s)%nat as Hlen by (destruct s; [done | cbn; lia]).
  destruct (Nat.ltb_spec 0 (length s)); [|lia].
  destruct (Nat.ltb_spec (length s) (length s + 3 - 1)); [|lia].
  cbn [andb]. apply take_app_length.
Qed.

Lemma split_nonempty (sep : N) (s : str) : split sep s <> [].
Proof.
  induction s as [|c s IH]; [done|]. cbn [split].
  destruct (c =? sep); [done|]. by destruct (split sep s).
Qed.

Lemma split_app_sep (sep : N) (a b : str) :
  ~ In sep a -> split sep (a ++ sep :: b) = a :: split sep b.
Proof.
  induction a as [|x a IH]; intros Ha.
  - cbn [app split]. by rewrite N.eqb_refl.
  - cbn [app split]. destruct (N.eqb_spec x sep) as [->|Hx].
    + destruct Ha. by left.
    + rewrite IH; [done|]. intros Hin. apply Ha. by right.
Qed.

Lemma split_without_sep (sep : N) (a : str) :
  ~ In sep a -> split sep a = [a].
Proof.
  induction a as [|x a IH]; intros Ha; [done|].
  cbn [split]. destruct (N.eqb_spec x sep) as [->|Hx].
  - destruct Ha. by left.
  - rewrite IH; [done|]. intros Hin. apply Ha. by right.
Qed.

Lemma split_second (sep : N) (a num tail : str) :
  ~ In sep a ->
  ~ In sep num ->
  tail = [] \/ (exists rest, tail = sep :: rest) ->
  split sep (a ++ sep :: num ++ tail) !! 1%nat = Some num.
Proof.
  intros Ha Hnum Htail. rewrite split_app_sep by done.
  destruct Htail as [->|[rest ->]].
  - by rewrite app_nil_r, split_without_sep.
  - by rewrite split_app_sep.
Qed.

Lemma split_two_fields (sep : N) (s : str) :
  In sep s -> exists field, split sep s !! 1%nat = Some field.
Proof.
  induction s as [|c s IH]; [done|]. intros Hin. cbn [split].
  destruct (N.eqb_spec c sep) as [->|Hc].
  - pose proof (split_nonempty sep s).
    destruct (split sep s) as [|field fields]; [done|]. by exists field.
  - destruct Hin as [->|Hin]; [done|].
    destruct (IH Hin) as [field Hfield].
    destruct (split sep s) as [|f1 fields]; [done|]. by exists field.
Qed.

Lemma digits_value_nonneg (s : str) (acc : Z) (after_digit : bool) (n : Z) :
  (0 <= acc)%Z -> digits_value acc after_digit s = Some n -> (0 <= n)%Z.
Proof.
  revert acc after_digit. induction s as [|c s IH]; intros acc after_digit Hacc.
  - cbn. destruct after_digit; [|done]. intros [= <-]. done.
  - cbn [digits_value]. destruct (to_decimal c) as [d|].
    + apply IH. lia.
    + destruct ((c =? 95) && after_digit); [by apply IH | done].
Qed.

Lemma int_nonneg (text : str) (n : Z) :
  ~ In 45 text -> int text = Some n -> (0 <= n)%Z.
Proof.
  intros Htext. rewrite int_unfold.
  destruct (strip text) as [|c digits] eqn:Hstrip; [done|].
  destruct (N.eqb_spec c 43); [by apply digits_value_nonneg|].
  destruct (N.eqb_spec c 45) as [->|]; [|by apply digits_value_nonneg].
  destruct Htext. apply (strip_chars_In int_space).
  rewrite <- strip_strip_chars, Hstrip. by left.
Qed.

(** What [next_issue_id] computes from the lexicographically last
    name. *)
Lemma next_issue_id_reads (matched : list str) (prefix num tail : str) :
  matched <> [] ->
  List.last (sorted str_le matched) []
  = prefix ++ [45] ++ num ++ tail ++ lit ".md" ->
  ~ In 45 prefix ->
  ~ In 45 num ->
  tail = [] \/ (exists rest, tail = 45 :: rest) ->
  next_issue_id matched prefix
  = Ok (prefix ++ lit "-"
          ++ format_03d
               (match int num with
                | Some n => n
                | None => Z.of_nat (length matched)
                end + 1)).
Proof.
  intros Hne Hlast Hprefix Hnum Htail.
  pose proof (sorted_perm_le str_le matched) as Hperm.
  unfold next_issue_id. cbv zeta.
  destruct (sorted str_le matched) as [|x xs] eqn:Hsorted.
  { apply Permutation_nil in Hperm. done. }
  rewrite Hlast.
  replace (prefix ++ [45] ++ num ++ tail ++ lit ".md")
    with ((prefix ++ 45 :: num ++ tail) ++ lit ".md")
    by (rewrite <- app_assoc; cbn [app]; by rewrite <- app_assoc).
  rewrite stem_md by (destruct prefix; cbn; intros ?; discriminate).
  rewrite split_second by done.
  by rewrite (Permutation_length Hperm).
Qed.


(** X14.  Once issue [k] is written and its file name, with or without
    a slug after the number, is the last one in lexicographic order,
    the next identifier is [k + 1]. *)
Theorem next_issue_id_increments
        (matched : list str) (prefix tail : str) (k : Z) :
  (0 <= k)%Z ->
  ~ In 45 prefix ->
  tail = [] \/ (exists slug, tail = 45 :: slug) ->
  In (prefix ++ lit "-" ++ format_03d k ++ tail ++ lit ".md") matched ->
  (forall other,
      In other matched ->
      str_le other (prefix ++ lit "-" ++ format_03d k ++ tail ++ lit ".md")
      = true) ->
  next_issue_id matched prefix
  = Ok (prefix ++ lit "-" ++ format_03d (k + 1)).
Proof.
  intros Hk Hprefix Htail Hin Hmax.
  pose proof (last_sorted_greatest matched _ Hin Hmax) as Hlast.
  destruct (format_03d_digits k Hk) as [Hdigits _].
  rewrite (next_issue_id_reads matched prefix (format_03d k) tail).
  - by rewrite int_format_03d.
  - intros ->. destruct Hin.
  - exact Hlast.
  - done.
  - intros Hc. apply (proj1 (List.Forall_forall _ _) Hdigits) in Hc.
    by vm_compute in Hc.
  - done.
Qed.

Lemma next_issue_id_increments_witness :
  next_issue_id issues_001_to_007 (lit "A11Y") = Ok (lit "A11Y-008").
Proof.
  apply (next_issue_id_increments issues_001_to_007 (lit "A11Y")
           (lit "-heading-order") 7).
  - lia.
  - vm_compute. intros Hin.
    repeat (destruct Hin as [Hin|Hin]; [discriminate Hin|]). destruct Hin.
  - right. by exists (lit "heading-order").
  - vm_compute. tauto.
  - intros other Hother. unfold issues_001_to_007 in Hother.
    cbn [In] in Hother.
    repeat (destruct Hother as [<-|Hother]; [by vm_compute|]).
    destruct Hother.
Defined.

Lemma numbered_order (prefix name other : str) (k j : Z) :
  numbered prefix k name ->
  numbered prefix j other ->
  str_le other name = true ->
  (j <= k)%Z.
Proof.
  intros (d1 & d2 & d3 & rest & -> & H1 & H2 & H3 & ->)
         (e1 & e2 & e3 & rest' & -> & G1 & G2 & G3 & ->).
  rewrite str_le_app. cbn [app str_le]. rewrite N.ltb_irrefl.
  unfold is_digit in *.
  apply andb_true_iff in H1 as [H1 H1'], H2 as [H2 H2'], H3 as [H3 H3'].
  apply andb_true_iff in G1 as [G1 G1'], G2 as [G2 G2'], G3 as [G3 G3'].
  apply N.leb_le in H1, H1', H2, H2', H3, H3', G1, G1', G2, G2', G3, G3'.
  destruct (N.ltb_spec e1 d1); [lia|].
  destruct (N.ltb_spec d1 e1); [done|].
  destruct (N.ltb_spec e2 d2); [lia|].
  destruct (N.ltb_spec d2 e2); [done|].
  destruct (N.ltb_spec e3 d3); [lia|].
  destruct (N.ltb_spec d3 e3); [done|].
  lia.
Qed.

Lemma int_three_digits (d1 d2 d3 : N) :
  is_digit d1 = true -> is_digit d2 = true -> is_digit d3 = true ->
  int [d1; d2; d3]
  = Some (100 * Z.of_N (d1 - 48) + 10 * Z.of_N (d2 - 48)
          + Z.of_N (d3 - 48))%Z.
Proof.
  intros H1 H2 H3. rewrite int_digits by by repeat constructor.
  cbn [digits_value].
  rewrite (to_decimal_digit d1 H1), (to_decimal_digit d2 H2),
    (to_decimal_digit d3 H3).
  f_equal. lia.
Qed.

(** X15.  When every matching file name is the prefix (without a hyphen), a
    hyphen, three digits, a hyphen, a slug and [.md], the identifier
    returned carries the highest of these numbers plus one. *)
Theorem next_issue_id_three_digit_names (matched : list str) (prefix : str) :
  ~ In 45 prefix ->
  matched <> [] ->
  Forall (fun name => exists k, numbered prefix k name) matched ->
  exists k,
    Exists (numbered prefix k) matched
    /\ Forall (fun name => forall j, numbered prefix j name -> (j <= k)%Z)
         matched
    /\ next_issue_id matched prefix
       = Ok (prefix ++ lit "-" ++ format_03d (k + 1)).
Proof.
  intros Hprefix Hne Hall.
  destruct (last_sorted_names matched Hne) as [Hin Hmax].
  destruct (proj1 (List.Forall_forall _ _) Hall _ Hin) as [k Hk].
  exists k. split; [|split].
  - apply List.Exists_exists. by eexists.
  - apply List.Forall_forall. intros other Hother j Hj.
    apply (numbered_order prefix _ other k j Hk Hj). by apply Hmax.
  - destruct Hk as (d1 & d2 & d3 & rest & Hname & H1 & H2 & H3 & ->).
    rewrite (next_issue_id_reads matched prefix [d1; d2; d3] (45 :: rest)).
    + by rewrite int_three_digits.
    + done.
    + by rewrite Hname.
    + done.
    + intros [->|[->|[->|[]]]]; by vm_compute in H1, H2, H3.
    + right. by exists rest.
Qed.

Lemma next_issue_id_three_digit_names_witness :
  exists k,
    Exists (numbered (lit "A11Y") k) issues_002_and_010
    /\ Forall (fun name => forall j, numbered (lit "A11Y") j name -> (j <= k)%Z)
         issues_002_and_010
    /\ next_issue_id issues_002_and_010 (lit "A11Y")
       = Ok (lit "A11Y" ++ lit "-" ++ format_03d (k + 1)).
Proof.
  apply next_issue_id_three_digit_names.
  - vm_compute. intros Hin.
    repeat (destruct Hin as [Hin|Hin]; [discriminate Hin|]). destruct Hin.
  - done.
  - unfold issues_002_and_010.
    apply List.Forall_cons.
    { eexists. exists 48, 49, 48, (lit "focus").
      split; [by vm_compute|]. by repeat split. }
    apply List.Forall_cons; [|apply List.Forall_nil].
    eexists. exists 48, 48, 50, (lit "contrast").
    split; [by vm_compute|]. by repeat split.
Defined.

End AllocationFacts.

Section AllocationShape.
Import IssueTemplate.

Lemma next_issue_id_ok_shape (matched : list str) (prefix id : str) :
  next_issue_id matched prefix = Ok id ->
  exists k, (1 <= k)%Z /\ id = prefix ++ lit "-" ++ format_03d k.
Proof.
  unfold next_issue_id. cbv zeta.
  destruct (sorted str_le matched) as [|x xs].
  { intros [= <-]. by exists 1%Z. }
  destruct (split 45 (stem (List.last (x :: xs) [])) !! 1%nat)
    as [field|] eqn:Hfield; [|done].
  intros [= <-]. eexists. split; [|reflexivity].
  assert (~ In 45 field) as Hno.
  { apply (proj1 (List.Forall_forall _ _)
             (split_no_sep 45 (stem (List.last (x :: xs) []))) field).
    apply list_elem_of_In. by eapply list_elem_of_lookup_2. }
  destruct (int field) as [n|] eqn:Hint; [|lia].
  pose proof (int_nonneg field n Hno Hint). lia.
Qed.

Lemma next_issue_id_glob_ok (matched : list str) (prefix : str) :
  Forall (fun name => exists mid, name = prefix ++ [45] ++ mid ++ lit ".md")
    matched ->
  exists id, next_issue_id matched prefix = Ok id.
Proof.
  intros Hall. destruct matched as [|name0 matched0] eqn:Hm.
  { by eexists. }
  rewrite <- Hm in *.
  destruct (last_sorted_names matched) as [Hin _]; [by rewrite Hm|].
  destruct (proj1 (List.Forall_forall _ _) Hall _ Hin) as [mid Hname].
  pose proof (sorted_perm_le str_le matched) as Hperm.
  unfold next_issue_id. cbv zeta.
  destruct (sorted str_le matched) as [|x xs] eqn:Hsorted.
  { by eexists. }
  rewrite Hname.
  replace (prefix ++ [45] ++ mid ++ lit ".md")
    with ((prefix ++ 45 :: mid) ++ lit ".md")
    by (rewrite <- app_assoc; done).
  rewrite stem_md by (destruct prefix; cbn; intros ?; discriminate).
  destruct (split_two_fields 45 (prefix ++ 45 :: mid)) as [field ->].
  { apply List.in_or_app. right. by left. }
  by eexists.
Qed.

(** X16.  On the names that the glob pattern yields, [next_issue_id] does
    not raise: it returns the prefix, a hyphen and a number of at
    least three digits that is 1 or more. *)
Theorem next_issue_id_on_glob_results (matched : list str) (prefix : str) :
  Forall (fun name => exists mid, name = prefix ++ [45] ++ mid ++ lit ".md")
    matched ->
  exists k,
    (1 <= k)%Z
    /\ next_issue_id matched prefix = Ok (prefix ++ lit "-" ++ format_03d k).
Proof.
  intros Hall. destruct (next_issue_id_glob_ok matched prefix Hall) as [id Hid].
  destruct (next_issue_id_ok_shape matched prefix id Hid) as (k & Hk & ->).
  by exists k.
Qed.

Lemma next_issue_id_on_glob_results_witness :
  exists k,
    (1 <= k)%Z
    /\ next_issue_id [lit "A11Y-notes.md"; lit "A11Y-003-x.md"] (lit "A11Y")
       = Ok (lit "A11Y" ++ lit "-" ++ format_03d k).
Proof.
  apply next_issue_id_on_glob_results.
  apply List.Forall_cons; [by exists (lit "notes")|].
  apply List.Forall_cons; [by exists (lit "003-x")|].
  apply List.Forall_nil.
Defined.








End AllocationShape.

(** * The rendered issue and the severity guard *)

Section RenderedIssue.
Import Re SeverityGuard IssueTemplate.

Lemma match_here_not_line_start (c : N) (s : str) :
  c <> 10 -> match_here severity_line (Some c) s = None.
Proof.
  intros Hc. unfold match_here, severity_line. cbn [matches].
  apply N.eqb_neq in Hc. by rewrite Hc.
Qed.

Lemma match_here_other_start (prev : option N) (s : str) :
  (forall s', s <> lit "- Severity:" ++ s') ->
  match_here severity_line prev s = None.
Proof.
  intros Hs. destruct (match_here severity_line prev s) as [m|] eqn:Hm;
    [|done].
  apply match_here_severity_line_shape in Hm
    as (ws & declared & ws' & after & -> & _).
  by destruct (Hs (ws ++ declared ++ ws' ++ after)).
Qed.

Lemma search_from_inside_line (c : N) (line rest : str) :
  c <> 10 ->
  ~ In 10 line ->
  search_from severity_line (Some c) (line ++ 10 :: rest)
  = search_from severity_line (Some 10) rest.
Proof.
  revert c. induction line as [|c' line IH]; intros c Hc Hline;
    rewrite search_from_unfold, match_here_not_line_start by done.
  - done.
  - cbn [app]. apply IH.
    + intros ->. apply Hline. by left.
    + intros Hin. apply Hline. by right.
Qed.

(** A line that does not start a match is skipped by the search. *)
Lemma search_from_line (prev : option N) (line rest : str) :
  ~ In 10 line ->
  (forall s', line ++ 10 :: rest <> lit "- Severity:" ++ s') ->
  search_from severity_line prev (line ++ 10 :: rest)
  = search_from severity_line (Some 10) rest.
Proof.
  intros Hline Hstart.
  rewrite search_from_unfold, (match_here_other_start _ _ Hstart).
  destruct line as [|c line]; [done|].
  cbn [app]. apply search_from_inside_line.
  - intros ->. apply Hline. by left.
  - intros Hin. apply Hline. by right.
Qed.

Lemma match_here_declared_line (declared rest : str) :
  In declared severity_words ->
  exists m,
    match_here severity_line (Some 10)
      (lit "- Severity: " ++ declared ++ 10 :: rest) = Some m
    /\ group1 m = Some declared.
Proof.
  intros Hin.
  destruct (match_here_severity_line_intro (Some 10) [32] declared []
              (10 :: rest)) as [m Hm];
    [by right | by repeat constructor | constructor | by right | done |].
  change (lit "- Severity:" ++ [32] ++ declared ++ [] ++ 10 :: rest)
    with (lit "- Severity: " ++ declared ++ 10 :: rest) in Hm.
  exists m. split; [done|].
  apply match_here_severity_line_shape in Hm
    as (ws & d & ws' & after & Heq & _ & Hws & _ & _ & Hd & ->).
  f_equal.
  change (lit "- Severity: " ++ declared ++ 10 :: rest)
    with (lit "- Severity:" ++ 32 :: declared ++ 10 :: rest) in Heq.
  apply app_inv_head in Heq.
  cbn [severity_words In] in Hin, Hd.
  destruct ws as [|w ws].
  { destruct Hd as [<-|[<-|[<-|[<-|[]]]]]; by vm_compute in Heq. }
  injection Heq as <- Heq. destruct ws as [|w ws].
  { destruct Hin as [<-|[<-|[<-|[<-|[]]]]];
      destruct Hd as [<-|[<-|[<-|[<-|[]]]]];
      first [ reflexivity | by vm_compute in Heq ]. }
  apply Forall_cons_1 in Hws as [_ Hws].
  apply Forall_cons_1 in Hws as [Hw _].
  destruct Hin as [<-|[<-|[<-|[<-|[]]]]];
    vm_compute in Heq; injection Heq as <- _; by vm_compute in Hw.
Qed.

Lemma allowed_severity_word (severity : str) :
  severity ∈ ALLOWED_SEVERITIES -> In severity severity_words.
Proof.
  unfold ALLOWED_SEVERITIES.
  rewrite !elem_of_union, !elem_of_singleton. cbn [severity_words In].
  intuition.
Qed.

Lemma build_issue_lines_head (a : args) (issue_id : str) :
  exists next tail,
    build_issue_lines a issue_id
    = [ lit "# Accessibility Issue"; [];
        lit "Use this template for each audit finding."; [];
        lit "## Issue"; [];
        lit "- ID: " ++ issue_id;
        lit "- Title: " ++ a_title a;
        lit "- Severity: " ++ a_severity a ]
        ++ next :: tail.
Proof.
  unfold build_issue_lines. cbv zeta.
  rewrite (append_steps_app (_ ++ _)). rewrite <- !app_assoc.
  cbn [app]. by eexists _, _.
Qed.

Lemma join_nl_cons (x y : str) (rest : list str) :
  join nl (x :: y :: rest) = x ++ 10 :: join nl (y :: rest).
Proof. reflexivity. Qed.

(** The guard finds the severity line of a text that starts as a
    rendered issue does. *)
Lemma parse_issue_head (issue_id title severity rest : str) :
  In severity severity_words ->
  ~ In 10 issue_id ->
  ~ In 10 title ->
  parse_declared_severity
    (lit "# Accessibility Issue" ++ 10 :: [] ++ 10
       :: lit "Use this template for each audit finding." ++ 10 :: [] ++ 10
       :: lit "## Issue" ++ 10 :: [] ++ 10
       :: (lit "- ID: " ++ issue_id) ++ 10
       :: (lit "- Title: " ++ title) ++ 10
       :: (lit "- Severity: " ++ severity) ++ 10 :: rest)
  = Some severity.
Proof.
  intros Hsev Hid Htitle.
  unfold parse_declared_severity, search.
  rewrite (search_from_line None (lit "# Accessibility Issue")).
  2:{ intros Hin. vm_compute in Hin.
      repeat (destruct Hin as [Hin|Hin]; [discriminate Hin|]). done. }
  2:{ intros s' H. by vm_compute in H. }
  rewrite (search_from_line (Some 10) []).
  2:{ by intros []. }
  2:{ intros s' H. by vm_compute in H. }
  rewrite (search_from_line (Some 10)
             (lit "Use this template for each audit finding.")).
  2:{ intros Hin. vm_compute in Hin.
      repeat (destruct Hin as [Hin|Hin]; [discriminate Hin|]). done. }
  2:{ intros s' H. by vm_compute in H. }
  rewrite (search_from_line (Some 10) []).
  2:{ by intros []. }
  2:{ intros s' H. by vm_compute in H. }
  rewrite (search_from_line (Some 10) (lit "## Issue")).
  2:{ intros Hin. vm_compute in Hin.
      repeat (destruct Hin as [Hin|Hin]; [discriminate Hin|]). done. }
  2:{ intros s' H. by vm_compute in H. }
  rewrite (search_from_line (Some 10) []).
  2:{ by intros []. }
  2:{ intros s' H. by vm_compute in H. }
  rewrite (search_from_line (Some 10) (lit "- ID: " ++ issue_id)).
  2:{ intros [Hin|Hin]%List.in_app_or; [|done]. vm_compute in Hin.
      repeat (destruct Hin as [Hin|Hin]; [discriminate Hin|]). done. }
  2:{ intros s' H. by vm_compute in H. }
  rewrite (search_from_line (Some 10) (lit "- Title: " ++ title)).
  2:{ intros [Hin|Hin]%List.in_app_or; [|done]. vm_compute in Hin.
      repeat (destruct Hin as [Hin|Hin]; [discriminate Hin|]). done. }
  2:{ intros s' H. by vm_compute in H. }
  destruct (match_here_declared_line severity rest Hsev) as (m & Hm & Hg).
  rewrite search_from_unfold, <- app_assoc, Hm. done.
Qed.

(** Reading leaves a line without carriage return as it is. *)
Lemma universal_newlines_line (line rest : str) :
  ~ In 13 line ->
  Pathlib.universal_newlines (line ++ 10 :: rest)
  = line ++ 10 :: Pathlib.universal_newlines rest.
Proof.
  induction line as [|c line IH]; intros Hline; [done|].
  cbn [app Pathlib.universal_newlines].
  destruct (N.eqb_spec c 13) as [->|_]; [destruct Hline; by left|].
  rewrite IH; [done|]. intros Hin. apply Hline. by right.
Qed.

Lemma write_text_data (text data : str) :
  Pathlib.write_text text = Some data -> data = text.
Proof.
  unfold Pathlib.write_text.
  destruct (List.existsb Pathlib.is_surrogate text); congruence.
Qed.

Lemma severity_word_no_return (severity : str) :
  In severity severity_words -> ~ In 13 (lit "- Severity: " ++ severity).
Proof.
  cbn [severity_words In].
  intros [<-|[<-|[<-|[<-|[]]]]] Hin; vm_compute in Hin;
    repeat (destruct Hin as [Hin|Hin]; [discriminate Hin|]); destruct Hin.
Qed.

Lemma read_rendered_issue (a : args) (issue_id : str) :
  In (a_severity a) severity_words ->
  ~ In 10 issue_id -> ~ In 13 issue_id ->
  ~ In 10 (a_title a) -> ~ In 13 (a_title a) ->
  parse_declared_severity
    (Pathlib.read_text (build_issue_markdown a issue_id))
  = Some (a_severity a).
Proof.
  intros Hsev Hid Hid' Htitle Htitle'.
  destruct (build_issue_lines_head a issue_id) as (next & tail & Hlines).
  unfold build_issue_markdown, Pathlib.read_text. rewrite Hlines.
  cbn [app]. rewrite !join_nl_cons.
  rewrite (universal_newlines_line (lit "# Accessibility Issue")).
  2:{ intros Hin. vm_compute in Hin.
      repeat (destruct Hin as [Hin|Hin]; [discriminate Hin|]). done. }
  rewrite (universal_newlines_line []) by by intros [].
  rewrite (universal_newlines_line
             (lit "Use this template for each audit finding.")).
  2:{ intros Hin. vm_compute in Hin.
      repeat (destruct Hin as [Hin|Hin]; [discriminate Hin|]). done. }
  rewrite (universal_newlines_line []) by by intros [].
  rewrite (universal_newlines_line (lit "## Issue")).
  2:{ intros Hin. vm_compute in Hin.
      repeat (destruct Hin as [Hin|Hin]; [discriminate Hin|]). done. }
  rewrite (universal_newlines_line []) by by intros [].
  rewrite (universal_newlines_line (lit "- ID: " ++ issue_id)).
  2:{ intros [Hin|Hin]%List.in_app_or; [|done]. vm_compute in Hin.
      repeat (destruct Hin as [Hin|Hin]; [discriminate Hin|]). done. }
  rewrite (universal_newlines_line (lit "- Title: " ++ a_title a)).
  2:{ intros [Hin|Hin]%List.in_app_or; [|done]. vm_compute in Hin.
      repeat (destruct Hin as [Hin|Hin]; [discriminate Hin|]). done. }
  rewrite (universal_newlines_line (lit "- Severity: " ++ a_severity a))
    by by apply severity_word_no_return.
  by apply parse_issue_head.
Qed.

(** X18.  An issue written by [main] declares its severity to the guard.
    When the severity is one of the allowed ones, neither the
    identifier nor the title holds a line feed or a carriage return,
    and the text is written to the file, the text that the guard reads
    back from the file declares that severity: [check_file] does not
    report a missing line and compares the severity with the floor of
    the text read. *)
Theorem rendered_issue_declares_severity (a : args) (issue_id data : str) :
  a_severity a ∈ ALLOWED_SEVERITIES ->
  ~ In 10 issue_id ->
  ~ In 13 issue_id ->
  ~ In 10 (a_title a) ->
  ~ In 13 (a_title a) ->
  Pathlib.write_text (build_issue_markdown a issue_id) = Some data ->
  parse_declared_severity (Pathlib.read_text data) = Some (a_severity a)
  /\ check_file (Pathlib.read_text data)
     = Ok (floor_verdict (a_severity a)
             (infer_minimum_severity (Pathlib.read_text data))).
Proof.
  intros Hsev%allowed_severity_word Hid Hid' Htitle Htitle'
    ->%write_text_data.
  pose proof (read_rendered_issue a issue_id Hsev Hid Hid' Htitle Htitle')
    as Hparse.
  split; [done|]. by apply check_file_floor_verdict.
Qed.

Lemma rendered_issue_declares_severity_witness :
  parse_declared_severity
    (Pathlib.read_text (build_issue_markdown sample_args (lit "A11Y-001")))
  = Some (lit "Medium")
  /\ check_file
       (Pathlib.read_text (build_issue_markdown sample_args (lit "A11Y-001")))
     = Ok (floor_verdict (lit "Medium")
             (infer_minimum_severity
                (Pathlib.read_text
                   (build_issue_markdown sample_args (lit "A11Y-001"))))).
Proof.
  apply (rendered_issue_declares_severity sample_args (lit "A11Y-001")).
  - by vm_compute.
  - intros Hin. vm_compute in Hin.
    repeat (destruct Hin as [Hin|Hin]; [discriminate Hin|]). done.
  - intros Hin. vm_compute in Hin.
    repeat (destruct Hin as [Hin|Hin]; [discriminate Hin|]). done.
  - intros Hin. vm_compute in Hin.
    repeat (destruct Hin as [Hin|Hin]; [discriminate Hin|]). done.
  - intros Hin. vm_compute in Hin.
    repeat (destruct Hin as [Hin|Hin]; [discriminate Hin|]). done.
  - by vm_compute.
Defined.

End RenderedIssue.
